(** * Automaker: dependency graph view and API authentication

    A shallow embedding of
    - the graph view component ([GraphView]: [filteredFeatures],
      [handleCreateDependency], [onDeleteDependency]), and
    - the server's authentication library ([createSession],
      [validateSession], [authMiddleware]),
    together with the properties of the dependency graph and of the
    credential checks that the specification states about them. *)

From stdpp Require Import gmap strings list relations.
From Stdlib Require Import ZArith.

Local Open Scope Z_scope.

(** ** Data model *)

(** A [Feature] as the graph view reads it.  Optional properties of the
    TypeScript interface are options: [None] is [undefined] (or [null]). *)
Module Feature.
Record t : Type := mk {
  id : string;
  title : option string;
  status : string;
  branchName : option string;
  dependencies : option (list string)
}.
End Feature.

(** [Partial<Feature>]: every property may be absent.  The [id] of a
    feature is immutable, so an update never carries one. *)
Module Partial.
Record t : Type := mk {
  title : option (option string);
  status : option string;
  branchName : option (option string);
  dependencies : option (list string)
}.
End Partial.

(** [{ dependencies: deps }] *)
Definition dependenciesUpdate (deps : list string) : Partial.t :=
  Partial.mk None None None (Some deps).

(** [(f.dependencies as string[] | undefined) || []] *)
Definition depsOf (f : Feature.t) : list string :=
  default [] (Feature.dependencies f).

(** [features.find((f) => f.id === featureId)]: the first match. *)
Definition findFeature (features : list Feature.t) (featureId : string)
  : option Feature.t :=
  List.find (fun f => String.eqb (Feature.id f) featureId) features.

(** JavaScript truthiness of a [string | null | undefined]: absent values
    and the empty string are falsy.  [whenTruthy s] is the string that a
    test [if (s)] lets through. *)
Definition whenTruthy (s : option string) : option string :=
  match s with
  | Some v => if String.eqb v "" then None else Some v
  | None => None
  end.

(** ** Dependency graph (derived view)

    Nodes are feature ids; there is an edge [(depId, featureId)] for every
    [depId] in the dependencies of a feature with id [featureId]. *)
Definition edge (features : list Feature.t) (depId featureId : string) : Prop :=
  ∃ f, f ∈ features ∧ Feature.id f = featureId ∧ depId ∈ depsOf f.

Definition acyclic (features : list Feature.t) : Prop :=
  ∀ x, ¬ tc (edge features) x x.

Definition noSelfDependency (features : list Feature.t) : Prop :=
  ∀ f, f ∈ features → Feature.id f ∉ depsOf f.

(** ** Dependency resolver *)

(** Modelled from the spec: the package [@automaker/dependency-resolver]
    (functions [dependencyExists] and [wouldCreateCircularDependency]) is
    imported by the graph view but its code is not part of the sources.
    [graphDependencies] is the spec's [graph.dependencies(targetId)]. *)
Definition graphDependencies (features : list Feature.t) (targetId : string)
  : list string :=
  filter (fun f => Feature.id f = targetId) features ≫= depsOf.

(** Modelled from the spec: [dependencyExists(graph, sourceId, targetId)]
    of the missing resolver package: true iff [sourceId] is in
    [graph.dependencies(targetId)] (direct edge only, not transitive). *)
Definition dependencyExists (features : list Feature.t)
  (sourceId targetId : string) : bool :=
  bool_decide (sourceId ∈ graphDependencies features targetId).

(** Modelled from the spec: one round of the forward reachability search
    of the missing resolver package: the seen-set grows by every feature
    that depends on a node already seen (edges run dependency to
    dependent). *)
Definition expand (features : list Feature.t) (seen : gset string)
  : gset string :=
  seen ∪ list_to_set
    (Feature.id <$>
       filter (fun f => Exists (fun d => d ∈ seen) (depsOf f)) features).

(** Modelled from the spec: the breadth-first search of the missing
    resolver package, bounded by [fuel] rounds. *)
Fixpoint search (features : list Feature.t) (fuel : nat) (seen : gset string)
  : gset string :=
  match fuel with
  | O => seen
  | S k => search features k (expand features seen)
  end.

(** Modelled from the spec: [wouldCreateCycle(graph, sourceId, targetId)]
    of the missing resolver package (imported under the name
    [wouldCreateCircularDependency]): forward reachability search from
    [targetId] over the dependency edges, bounded by the node count, which
    answers whether [sourceId] is reached. *)
Definition wouldCreateCircularDependency (features : list Feature.t)
  (sourceId targetId : string) : bool :=
  bool_decide (sourceId ∈ search features (length features) {[targetId]}).

(** The nodes a search from [start] can ever see: the feature ids and
    the start itself (used to bound the search). *)
Definition universe (features : list Feature.t) (start : string) : gset string :=
  {[start]} ∪ list_to_set (Feature.id <$> features).

(** A seen-set that no edge leaves. *)
Definition closed (features : list Feature.t) (seen : gset string) : Prop :=
  ∀ d x, d ∈ seen → edge features d x → x ∈ seen.

(** ** Effects of the graph view: toasts and the feature store *)

Inductive ToastKind : Type := ToastError | ToastInfo | ToastSuccess.

Record World : Type := mkWorld {
  store : list Feature.t;
  toasts : list (ToastKind * string)
}.

(** State-passing computations over the world outside the component. *)
Definition M (A : Type) : Type := World → A * World.

#[global] Instance M_ret : MRet M := fun A (a : A) w => (a, w).

#[global] Instance M_bind : MBind M :=
  fun A B (k : A → M B) (m : M A) w => let '(a, w') := m w in k a w'.

(** [toast.error(msg)], [toast.info(msg)], [toast.success(msg)] *)
Definition toast (kind : ToastKind) (msg : string) : M unit :=
  fun w => (tt, mkWorld (store w) (toasts w ++ [(kind, msg)])).

(** [(featureId: string, updates: Partial<Feature>) => void] *)
Definition Handler : Type := string → Partial.t → M unit.

(** [onUpdateFeature?.(featureId, updates)]: the prop is optional and the
    call is skipped when it is absent. *)
Definition optionalCall (onUpdateFeature : option Handler)
  (featureId : string) (updates : Partial.t) : M unit :=
  match onUpdateFeature with
  | Some h => h featureId updates
  | None => mret tt
  end.

(** [{ ...f, ...updates }] *)
Definition applyPartial (f : Feature.t) (u : Partial.t) : Feature.t :=
  Feature.mk (Feature.id f)
    (default (Feature.title f) (Partial.title u))
    (default (Feature.status f) (Partial.status u))
    (default (Feature.branchName f) (Partial.branchName u))
    (match Partial.dependencies u with
     | Some d => Some d
     | None => Feature.dependencies f
     end).

(** Modelled from the spec: [updateFeature(id, partialFields)] of the
    feature store, which the board wires to [onUpdateFeature]; the store
    is not part of the sources.  Feature records are keyed by id: the
    fields given replace those of the feature with that id. *)
Definition updateFeature (featureId : string) (updates : Partial.t)
  (features : list Feature.t) : list Feature.t :=
  (fun f => if String.eqb (Feature.id f) featureId
            then applyPartial f updates else f) <$> features.

Definition storeUpdate : Handler :=
  fun featureId updates w =>
    (tt, mkWorld (updateFeature featureId updates (store w)) (toasts w)).

(** ** The graph view *)

Section GraphView.

(** [useAppStore.getState().isPrimaryWorktreeBranch(projectPath, branch)]:
    a query of the application store, taken as given. *)
Variable isPrimaryWorktreeBranch : string → string → bool.

(** The features shown for the current worktree. *)
Definition filteredFeatures (features : list Feature.t)
  (currentWorktreePath currentWorktreeBranch projectPath : option string)
  : list Feature.t :=
  let effectiveBranch := currentWorktreeBranch in
  List.filter (fun f =>
    if String.eqb (Feature.status f) "completed" then false
    else
      match whenTruthy (Feature.branchName f) with
      | None => bool_decide (currentWorktreePath = None)
      | Some featureBranch =>
          match effectiveBranch with
          | None =>
              match whenTruthy projectPath with
              | Some path => isPrimaryWorktreeBranch path featureBranch
              | None => false
              end
          | Some branch => String.eqb featureBranch branch
          end
      end) features.

End GraphView.

(** Creating a dependency by connecting two nodes: [targetId] will depend
    on [sourceId].  The debug output on the console is not modelled. *)
Definition handleCreateDependency (features : list Feature.t)
  (onUpdateFeature : option Handler) (sourceId targetId : string) : M bool :=
  let targetFeature := findFeature features targetId in
  if String.eqb sourceId targetId then
    toast ToastError "A task cannot depend on itself" ;; mret false
  else if dependencyExists features sourceId targetId then
    toast ToastInfo "Dependency already exists" ;; mret false
  else if wouldCreateCircularDependency features sourceId targetId then
    toast ToastError "Cannot create circular dependency" ;; mret false
  else
    match targetFeature with
    | None => toast ToastError "Target task not found" ;; mret false
    | Some target =>
        let currentDeps := depsOf target in
        optionalCall onUpdateFeature targetId
          (dependenciesUpdate (currentDeps ++ [sourceId])) ;;
        toast ToastSuccess "Dependency created" ;;
        mret true
    end.

(** [nodeActionCallbacks.onDeleteDependency] *)
Definition onDeleteDependency (features : list Feature.t)
  (onUpdateFeature : option Handler) (sourceId targetId : string) : M unit :=
  match findFeature features targetId with
  | None => mret tt
  | Some targetFeature =>
      let currentDeps := depsOf targetFeature in
      let newDeps :=
        List.filter (fun depId => negb (String.eqb depId sourceId)) currentDeps in
      optionalCall onUpdateFeature targetId (dependenciesUpdate newDeps) ;;
      toast ToastSuccess "Dependency removed"
  end.

(** A sequence of edge connections; the view is rendered again from the
    store before each one.  The result lists what each call returned. *)
Fixpoint connectAll (onUpdateFeature : option Handler)
  (connections : list (string * string)) : M (list bool) :=
  match connections with
  | [] => mret []
  | (sourceId, targetId) :: rest =>
      fun w =>
        let '(ok, w') :=
          handleCreateDependency (store w) onUpdateFeature sourceId targetId w in
        let '(oks, w'') := connectAll onUpdateFeature rest w' in
        (ok :: oks, w'')
  end.

(** The [onUpdateFeature] prop as the board passes it: left out, or the
    store's [updateFeature]. *)
Inductive boardHandler : option Handler → Prop :=
| handler_absent : boardHandler None
| handler_store : boardHandler (Some storeUpdate).

(** The graph with the edge [(sourceId, targetId)] added. *)
Definition withEdge (R : relation string) (sourceId targetId : string)
  : relation string :=
  fun d x => R d x ∨ (d = sourceId ∧ x = targetId).

(** ** Authentication *)

Module Auth.

Definition SESSION_COOKIE_NAME : string := "automaker_session".
Definition SESSION_MAX_AGE_MS : Z := 30 * 24 * 60 * 60 * 1000.

Record Session : Type := mkSession { createdAt : Z; expiresAt : Z }.

(** The parts of an Express request that the middleware reads. *)
Record Request : Type := mkRequest {
  header_x_api_key : option string;
  header_x_session_token : option string;
  query_apiKey : option string;
  cookies : option (gmap string string)
}.

(** What the middleware does with a request: call [next()], or answer
    [res.status(code).json({ success: false, error })]. *)
Inductive Response : Type :=
| Next
| Status (code : Z) (error : string).

(** [createSession]: [token] is the value [generateSessionToken] drew and
    [now] the value of [Date.now()].  The session file written by
    [saveSessions] is a copy of the map and is not read again while the
    server runs. *)
Definition createSession (token : string) (now : Z)
  (validSessions : gmap string Session) : string * gmap string Session :=
  (token, <[token := mkSession now (now + SESSION_MAX_AGE_MS)]> validSessions).

Definition validateSession (now : Z) (token : string)
  (validSessions : gmap string Session) : bool * gmap string Session :=
  match validSessions !! token with
  | None => (false, validSessions)
  | Some session =>
      if bool_decide (now > expiresAt session)
      then (false, delete token validSessions)
      else (true, validSessions)
  end.

Definition invalidateSession (token : string)
  (validSessions : gmap string Session) : gmap string Session :=
  delete token validSessions.

(** [req.cookies?.[SESSION_COOKIE_NAME]] *)
Definition sessionCookie (req : Request) : option string :=
  match cookies req with
  | Some jar => jar !! SESSION_COOKIE_NAME
  | None => None
  end.

Section WithApiKey.

(** The key that [ensureApiKey] loaded or generated at startup. *)
Variable API_KEY : string.

Definition validateApiKey (key : string) : bool := String.eqb key API_KEY.

Definition authMiddleware (now : Z) (req : Request)
  (validSessions : gmap string Session) : Response * gmap string Session :=
  match whenTruthy (header_x_api_key req) with
  | Some headerKey =>
      if String.eqb headerKey API_KEY then (Next, validSessions)
      else (Status 403 "Invalid API key.", validSessions)
  | None =>
  match whenTruthy (header_x_session_token req) with
  | Some sessionTokenHeader =>
      let '(ok, sessions') := validateSession now sessionTokenHeader validSessions in
      if ok then (Next, sessions')
      else (Status 403 "Invalid or expired session token.", sessions')
  | None =>
  match whenTruthy (query_apiKey req) with
  | Some queryKey =>
      if String.eqb queryKey API_KEY then (Next, validSessions)
      else (Status 403 "Invalid API key.", validSessions)
  | None =>
  match whenTruthy (sessionCookie req) with
  | Some sessionToken =>
      let '(ok, sessions') := validateSession now sessionToken validSessions in
      if ok then (Next, sessions')
      else (Status 401 "Authentication required.", sessions')
  | None => (Status 401 "Authentication required.", validSessions)
  end end end end.

End WithApiKey.

(** A run of [validateSession] calls, each with its own clock reading. *)
Fixpoint validateAll (calls : list (Z * string))
  (validSessions : gmap string Session) : gmap string Session :=
  match calls with
  | [] => validSessions
  | (now, token) :: rest =>
      validateAll rest (snd (validateSession now token validSessions))
  end.

End Auth.
(** ** Editing sessions in the graph view *)

(** The two edits of the dependency graph that the canvas offers. *)
Inductive GraphAction : Type :=
| Connect (sourceId targetId : string)
| Disconnect (sourceId targetId : string).

(** One edit on the view rendered from the current store. *)
Definition runAction (onUpdateFeature : option Handler) (a : GraphAction)
  : M unit :=
  fun w =>
    match a with
    | Connect sourceId targetId =>
        (tt, snd (handleCreateDependency (store w) onUpdateFeature
                    sourceId targetId w))
    | Disconnect sourceId targetId =>
        onDeleteDependency (store w) onUpdateFeature sourceId targetId w
    end.

Fixpoint runActions (onUpdateFeature : option Handler)
  (actions : list GraphAction) : M unit :=
  match actions with
  | [] => mret tt
  | a :: rest =>
      fun w => runActions onUpdateFeature rest
                 (snd (runAction onUpdateFeature a w))
  end.

(** ** Authentication: startup, request status and routes *)

Module AuthServer.

(** [loadSessions]: [file] is the parsed content of the sessions file,
    [None] when the file does not exist or cannot be read or parsed (the
    error is caught and nothing is loaded). *)
Definition loadSessions (file : option (list (string * Auth.Session)))
  (now : Z) (validSessions : gmap string Auth.Session)
  : gmap string Auth.Session :=
  match file with
  | None => validSessions
  | Some sessions =>
      foldl (fun m '(token, session) =>
               if bool_decide (Auth.expiresAt session > now)
               then <[token := session]> m else m)
        validSessions sessions
  end.

(** [saveSessions] writes [Array.from(validSessions.entries())]: every
    entry of the map once.  The map lists them in insertion order, which
    the finite map does not record, so a saved file is any listing of the
    entries. *)
Definition savedAs (validSessions : gmap string Auth.Session)
  (entries : list (string * Auth.Session)) : Prop :=
  entries ≡ₚ map_to_list validSessions.

Section EnsureApiKey.

(** [String.prototype.trim], taken as given. *)
Variable trim : string → string.

(** [ensureApiKey]: [env] is [process.env.AUTOMAKER_API_KEY], [file] the
    content of the key file ([None] when it is missing or unreadable) and
    [newKey] the value of [crypto.randomUUID()].  The second component is
    what is written to the key file, if anything. *)
Definition ensureApiKey (env file : option string) (newKey : string)
  : string * option string :=
  match whenTruthy env with
  | Some key => (key, None)
  | None =>
      match whenTruthy (trim <$> file) with
      | Some key => (key, None)
      | None => (newKey, Some newKey)
      end
  end.

End EnsureApiKey.

Inductive SameSite : Type := Strict | Lax | NoneSite.

Record CookieOptions : Type := mkCookieOptions {
  httpOnly : bool;
  secure : bool;
  sameSite : SameSite;
  maxAge : Z;
  path : string
}.

(** [getSessionCookieOptions]: [nodeEnv] is [process.env.NODE_ENV]. *)
Definition getSessionCookieOptions (nodeEnv : option string) : CookieOptions :=
  mkCookieOptions true (bool_decide (nodeEnv = Some "production")) Strict
    Auth.SESSION_MAX_AGE_MS "/".

Definition getSessionCookieName : string := Auth.SESSION_COOKIE_NAME.

(** What a route of [/api/auth] answers. *)
Inductive Reply : Type :=
| Failure (code : Z) (error : string)
| StatusReply (authenticated : bool)
| LoginReply (cookieName cookieValue : string) (options : CookieOptions)
    (token : string)
| TokenReply (token : string)
| LogoutReply (clearedCookie : string).

Section WithApiKey.

Variable API_KEY : string.

(** [isRequestAuthenticated]: [nowHeader] and [nowCookie] are the clock
    readings of the validation of the token header and of the cookie. *)
Definition isRequestAuthenticated (nowHeader nowCookie : Z)
  (req : Auth.Request) (validSessions : gmap string Auth.Session)
  : bool * gmap string Auth.Session :=
  if match whenTruthy (Auth.header_x_api_key req) with
     | Some headerKey => String.eqb headerKey API_KEY
     | None => false
     end
  then (true, validSessions)
  else
    let '(okHeader, sessions1) :=
      match whenTruthy (Auth.header_x_session_token req) with
      | Some sessionTokenHeader =>
          Auth.validateSession nowHeader sessionTokenHeader validSessions
      | None => (false, validSessions)
      end in
    if okHeader then (true, sessions1)
    else if match whenTruthy (Auth.query_apiKey req) with
            | Some queryKey => String.eqb queryKey API_KEY
            | None => false
            end
    then (true, sessions1)
    else
      match whenTruthy (Auth.sessionCookie req) with
      | Some sessionToken =>
          Auth.validateSession nowCookie sessionToken sessions1
      | None => (false, sessions1)
      end.

(** [GET /api/auth/status] *)
Definition statusRoute (nowHeader nowCookie : Z) (req : Auth.Request)
  (validSessions : gmap string Auth.Session)
  : Reply * gmap string Auth.Session :=
  let '(authenticated, sessions') :=
    isRequestAuthenticated nowHeader nowCookie req validSessions in
  (StatusReply authenticated, sessions').

(** [POST /api/auth/login]: [apiKey] is the field of the request body,
    [token] and [now] what [createSession] draws and reads. *)
Definition loginRoute (nodeEnv : option string) (apiKey : option string)
  (token : string) (now : Z) (validSessions : gmap string Auth.Session)
  : Reply * gmap string Auth.Session :=
  match whenTruthy apiKey with
  | None => (Failure 400 "API key is required.", validSessions)
  | Some key =>
      if negb (Auth.validateApiKey API_KEY key)
      then (Failure 401 "Invalid API key.", validSessions)
      else
        let '(sessionToken, sessions') :=
          Auth.createSession token now validSessions in
        (LoginReply getSessionCookieName sessionToken
           (getSessionCookieOptions nodeEnv) sessionToken, sessions')
  end.

(** [GET /api/auth/token] *)
Definition tokenRoute (nowHeader nowCookie : Z) (req : Auth.Request)
  (validSessions : gmap string Auth.Session)
  : Reply * gmap string Auth.Session :=
  match whenTruthy (Auth.sessionCookie req) with
  | None => (Failure 401 "No session cookie found.", validSessions)
  | Some sessionToken =>
      let '(authenticated, sessions') :=
        isRequestAuthenticated nowHeader nowCookie req validSessions in
      if authenticated then (TokenReply sessionToken, sessions')
      else (Failure 401 "Session expired.", sessions')
  end.

End WithApiKey.

(** [POST /api/auth/logout] *)
Definition logoutRoute (req : Auth.Request)
  (validSessions : gmap string Auth.Session)
  : Reply * gmap string Auth.Session :=
  match whenTruthy (Auth.sessionCookie req) with
  | Some sessionToken =>
      (LogoutReply getSessionCookieName,
       Auth.invalidateSession sessionToken validSessions)
  | None => (LogoutReply getSessionCookieName, validSessions)
  end.

End AuthServer.

(** ** Sample data

    Three tasks without dependencies, and the chain in which [B] depends
    on [A] and [C] on [B]; a session store with one session that expires
    at time 10. *)
Module Sample.

Definition task (id : string) (deps : option (list string)) : Feature.t :=
  Feature.mk id None "queued" None deps.

Definition fA : Feature.t := task "A" None.
Definition fB : Feature.t := task "B" None.
Definition fC : Feature.t := task "C" None.
Definition fB_A : Feature.t := task "B" (Some ["A"]).
Definition fC_B : Feature.t := task "C" (Some ["B"]).

Definition sessions : gmap string Auth.Session :=
  {["tok" := Auth.mkSession 0 10]}.

End Sample.

(** ** The reachability search computes reachability *)

Lemma size_list_to_set_le (l : list string) :
  (size (list_to_set (C := gset string) l) ≤ length l)%nat.
Proof.
  induction l as [| x l IH].
  - by rewrite list_to_set_nil, size_empty.
  - rewrite list_to_set_cons, size_union_alt, size_singleton. apply le_n_S.
    etrans; [apply subseteq_size, subseteq_difference_l; done | done].
Qed.

Section Resolver.

Variable features : list Feature.t.

Lemma elem_of_expand seen x :
  x ∈ expand features seen ↔ x ∈ seen ∨ ∃ d, d ∈ seen ∧ edge features d x.
Proof.
  unfold expand, edge.
  rewrite elem_of_union, elem_of_list_to_set, list_elem_of_fmap.
  split.
  - intros [Hx | (f & -> & Hf)]; [by left | right].
    apply list_elem_of_filter in Hf as [Hex Hf].
    apply Exists_exists in Hex as (d & Hd & Hseen).
    exists d. split; [done |]. by exists f.
  - intros [Hx | (d & Hd & f & Hf & <- & Hdf)]; [by left | right].
    exists f. split; [done |].
    apply list_elem_of_filter. split; [| done].
    apply Exists_exists. by exists d.
Qed.

Lemma expand_incl seen : seen ⊆ expand features seen.
Proof. intros x Hx. apply elem_of_expand. by left. Qed.

Lemma search_incl fuel seen : seen ⊆ search features fuel seen.
Proof.
  revert seen. induction fuel as [| k IH]; intros seen; simpl; [done |].
  etrans; [apply expand_incl | apply IH].
Qed.

Lemma edge_target_in_universe start d x : edge features d x → x ∈ universe features start.
Proof.
  intros (f & Hf & <- & _). unfold universe.
  apply elem_of_union_r, elem_of_list_to_set, list_elem_of_fmap.
  by exists f.
Qed.

Lemma reachable_in_universe start x : rtc (edge features) start x → x ∈ universe features start.
Proof.
  intros H. apply rtc_inv_r in H as [-> | (y & _ & Hyx)].
  - unfold universe. set_solver.
  - by eapply edge_target_in_universe.
Qed.

Lemma expand_universe start seen :
  seen ⊆ universe features start → expand features seen ⊆ universe features start.
Proof.
  intros Hsub x Hx. apply elem_of_expand in Hx as [Hx | (d & _ & Hdx)].
  - by apply Hsub.
  - by eapply edge_target_in_universe.
Qed.

Lemma search_universe start fuel seen :
  seen ⊆ universe features start → search features fuel seen ⊆ universe features start.
Proof.
  revert seen. induction fuel as [| k IH]; intros seen Hsub; simpl; [done |].
  by apply IH, expand_universe.
Qed.

Lemma size_universe start : (size (universe features start) ≤ S (length features))%nat.
Proof.
  unfold universe.
  rewrite size_union_alt, size_singleton.
  apply le_n_S. etrans; [apply subseteq_size, subseteq_difference_l; done |].
  etrans; [apply size_list_to_set_le |]. by rewrite length_fmap.
Qed.

(** Soundness: the search only ever sees nodes reachable from the start. *)
Lemma expand_sound start seen :
  (∀ y, y ∈ seen → rtc (edge features) start y) →
  ∀ x, x ∈ expand features seen → rtc (edge features) start x.
Proof.
  intros Hseen x Hx. apply elem_of_expand in Hx as [Hx | (d & Hd & Hdx)].
  - by apply Hseen.
  - eapply rtc_r; [by apply Hseen | done].
Qed.

Lemma search_sound start fuel seen :
  (∀ y, y ∈ seen → rtc (edge features) start y) →
  ∀ x, x ∈ search features fuel seen → rtc (edge features) start x.
Proof.
  revert seen. induction fuel as [| k IH]; intros seen Hseen; simpl; [done |].
  apply IH. by apply expand_sound.
Qed.

(** Completeness: a set closed under the edges holds all that can be
    reached from its members. *)
Lemma closed_reachable seen start x :
  closed features seen → start ∈ seen → rtc (edge features) start x → x ∈ seen.
Proof.
  intros Hcl Hstart Hreach. revert x Hreach.
  apply (rtc_ind_r (fun x => x ∈ seen)); [done |].
  intros y z _ Hyz Hy. by eapply Hcl.
Qed.

Lemma expand_fixed_closed seen : expand features seen = seen → closed features seen.
Proof.
  intros Heq d x Hd Hdx. rewrite <- Heq.
  apply elem_of_expand. right. by exists d.
Qed.

Lemma search_fixed fuel seen :
  expand features seen = seen → search features fuel seen = seen.
Proof.
  intros Heq. induction fuel as [| k IH]; simpl; [done |]. by rewrite Heq.
Qed.

(** Each round either has reached a closed set or has grown the
    seen-set by a node. *)
Lemma search_progress fuel seen :
  closed features (search features fuel seen) ∨
  (size seen + fuel ≤ size (search features fuel seen))%nat.
Proof.
  revert seen. induction fuel as [| k IH]; intros seen; simpl.
  - right. lia.
  - destruct (decide (expand features seen = seen)) as [Heq | Hne].
    + left. rewrite Heq, search_fixed by done. by apply expand_fixed_closed.
    + destruct (IH (expand features seen)) as [Hcl | Hsz]; [by left | right].
      assert (seen ⊂ expand features seen) as Hlt.
      { split; [apply expand_incl |]. intros Hsub. apply Hne.
        apply set_eq. intros x. split; [apply Hsub | apply expand_incl]. }
      apply subset_size in Hlt. lia.
Qed.

Lemma search_complete start x :
  rtc (edge features) start x → x ∈ search features (length features) {[start]}.
Proof.
  intros Hreach.
  set (R := search features (length features) {[start]}).
  assert (start ∈ R) as Hstart by (apply search_incl; set_solver).
  assert (R ⊆ universe features start) as Hsub.
  { apply search_universe. unfold universe. set_solver. }
  destruct (search_progress (length features) {[start]}) as [Hcl | Hsz].
  - by eapply closed_reachable.
  - rewrite size_singleton in Hsz. fold R in Hsz.
    assert (R = universe features start) as ->.
    { apply set_subseteq_size_eq; [done |].
      etrans; [apply size_universe | done]. }
    by apply reachable_in_universe.
Qed.

(** The search decides reachability along dependency edges. *)
Lemma wouldCreateCircularDependency_spec sourceId targetId :
  wouldCreateCircularDependency features sourceId targetId = true ↔
  rtc (edge features) targetId sourceId.
Proof.
  unfold wouldCreateCircularDependency. rewrite bool_decide_eq_true.
  split; [| apply search_complete].
  apply search_sound. intros y Hy. apply elem_of_singleton in Hy as ->. done.
Qed.

Lemma dependencyExists_spec sourceId targetId :
  dependencyExists features sourceId targetId = true ↔ edge features sourceId targetId.
Proof.
  unfold dependencyExists, graphDependencies, edge.
  rewrite bool_decide_eq_true, list_elem_of_bind.
  split.
  - intros (f & Hs & Hf).
    apply list_elem_of_filter in Hf as [Hid Hf]. by exists f.
  - intros (f & Hf & Hid & Hs). exists f. split; [done |].
    by apply list_elem_of_filter.
Qed.

End Resolver.

(** ** Adding one edge to a graph *)

Section AddEdge.

Variable R : relation string.
Variables s t : string.

Lemma withEdge_incl d x : R d x → withEdge R s t d x.
Proof. by left. Qed.

(** A path in the graph with the new edge either avoids it, or reaches
    its source and leaves from its target along old edges. *)
Lemma rtc_withEdge a b :
  rtc (withEdge R s t) a b → rtc R a b ∨ (rtc R a s ∧ rtc R t b).
Proof.
  revert b. apply rtc_ind_r; [by left |].
  intros y z _ [Hyz | [-> ->]] [Hay | [Has Hty]].
  - left. by eapply rtc_r.
  - right. split; [done |]. by eapply rtc_r.
  - right. done.
  - right. done.
Qed.

Lemma rtc_withEdge_back : rtc (withEdge R s t) t s ↔ rtc R t s.
Proof.
  split.
  - intros H. apply rtc_withEdge in H. tauto.
  - apply rtc_subrel. intros d x. apply withEdge_incl.
Qed.

(** Every cycle of the extended graph needs a path back from the target
    of the new edge to its source, unless the graph had a cycle. *)
Lemma tc_withEdge_cycle x :
  tc (withEdge R s t) x x → rtc R t s ∨ tc R x x.
Proof.
  intros H.
  assert (∃ y, withEdge R s t x y ∧ rtc (withEdge R s t) y x)
    as (y & Hxy & Hyx).
  { inversion H as [? ? Hxx | ? y ? Hxy Hyx]; subst.
    - by exists x.
    - exists y. split; [done |]. by apply tc_rtc. }
  apply rtc_withEdge in Hyx.
  destruct Hxy as [Hxy | [-> ->]].
  - destruct Hyx as [Hyx | [Hys Htx]].
    + right. by eapply tc_rtc_r; [apply tc_once |].
    + left. etrans; [apply Htx |]. by eapply rtc_l.
  - left. tauto.
Qed.

End AddEdge.

(** C2: for a pair whose edge is not present yet,
    [wouldCreateCircularDependency] answers true exactly when [sourceId]
    is already reachable from [targetId] along the existing dependency
    edges, which is exactly when the graph with the new edge has a path
    from [targetId] back to [sourceId]. *)
Theorem wouldCreateCircularDependency_correct
  (features : list Feature.t) (sourceId targetId : string) :
  dependencyExists features sourceId targetId = false →
  (wouldCreateCircularDependency features sourceId targetId = true ↔
     rtc (edge features) targetId sourceId) ∧
  (wouldCreateCircularDependency features sourceId targetId = true ↔
     rtc (withEdge (edge features) sourceId targetId) targetId sourceId).
Proof.
  intros _. split.
  - apply wouldCreateCircularDependency_spec.
  - rewrite rtc_withEdge_back. apply wouldCreateCircularDependency_spec.
Qed.

(** ** The feature store under [updateFeature] *)

Lemma findFeature_Some features featureId f :
  findFeature features featureId = Some f →
  f ∈ features ∧ Feature.id f = featureId.
Proof.
  unfold findFeature. intros H. apply find_some in H as [Hin Heq].
  split; [by apply list_elem_of_In | by apply String.eqb_eq].
Qed.


Lemma applyPartial_id f u : Feature.id (applyPartial f u) = Feature.id f.
Proof. done. Qed.

Lemma depsOf_applyPartial f deps :
  depsOf (applyPartial f (dependenciesUpdate deps)) = deps.
Proof. done. Qed.

Lemma length_updateFeature featureId u features :
  length (updateFeature featureId u features) = length features.
Proof. unfold updateFeature. apply length_fmap. Qed.

Lemma findFeature_updateFeature featureId u features f :
  findFeature features featureId = Some f →
  findFeature (updateFeature featureId u features) featureId
  = Some (applyPartial f u).
Proof.
  unfold findFeature, updateFeature.
  induction features as [| g features IH]; simpl; [done |].
  destruct (String.eqb (Feature.id g) featureId) eqn:Hg; simpl.
  - rewrite Hg. by intros [= ->].
  - rewrite Hg. apply IH.
Qed.

Lemma lookup_updateFeature_ne featureId u features (i : nat) f :
  features !! i = Some f → Feature.id f ≠ featureId →
  updateFeature featureId u features !! i = Some f.
Proof.
  intros Hi Hne. unfold updateFeature.
  rewrite list_lookup_fmap, Hi. simpl.
  apply String.eqb_neq in Hne. by rewrite Hne.
Qed.

Lemma elem_of_updateFeature featureId u features g :
  g ∈ updateFeature featureId u features →
  ∃ f, f ∈ features ∧
       ((Feature.id f = featureId ∧ g = applyPartial f u) ∨
        (Feature.id f ≠ featureId ∧ g = f)).
Proof.
  unfold updateFeature. intros H.
  apply list_elem_of_fmap in H as (f & -> & Hf).
  exists f. split; [done |].
  destruct (String.eqb (Feature.id f) featureId) eqn:Hid.
  - left. by apply String.eqb_eq in Hid.
  - right. by apply String.eqb_neq in Hid.
Qed.

(** Replacing the dependencies of [targetId] by those of one of its
    records plus [sourceId] adds at most the edge
    [(sourceId, targetId)]. *)
Lemma edge_updateFeature features sourceId targetId target d x :
  findFeature features targetId = Some target →
  edge (updateFeature targetId
          (dependenciesUpdate (depsOf target ++ [sourceId])) features) d x →
  withEdge (edge features) sourceId targetId d x.
Proof.
  intros Hfind (g & Hg & Hid & Hd).
  apply findFeature_Some in Hfind as [Htarget Htid].
  apply elem_of_updateFeature in Hg as (f & Hf & [[Hfid ->] | [Hfid ->]]).
  - rewrite depsOf_applyPartial in Hd. rewrite applyPartial_id in Hid.
    apply elem_of_app in Hd as [Hd | Hd].
    + left. exists target. by rewrite Htid, <- Hid, Hfid.
    + apply list_elem_of_singleton in Hd. right. by rewrite <- Hid, Hfid.
  - left. by exists f.
Qed.

(** Removing dependencies adds no edge. *)
Lemma edge_updateFeature_sub features targetId target deps d x :
  findFeature features targetId = Some target →
  deps ⊆ depsOf target →
  edge (updateFeature targetId (dependenciesUpdate deps) features) d x →
  edge features d x.
Proof.
  intros Hfind Hsub (g & Hg & Hid & Hd).
  apply findFeature_Some in Hfind as [Htarget Htid].
  apply elem_of_updateFeature in Hg as (f & Hf & [[Hfid ->] | [Hfid ->]]).
  - rewrite depsOf_applyPartial in Hd. rewrite applyPartial_id in Hid.
    exists target. split; [done |]. split; [congruence | by apply Hsub].
  - by exists f.
Qed.

(** ** [handleCreateDependency] *)

(** The four rejections, in the order the checks are made. *)
Lemma handleCreateDependency_rejects features h sourceId targetId w :
  sourceId = targetId ∨
  dependencyExists features sourceId targetId = true ∨
  wouldCreateCircularDependency features sourceId targetId = true ∨
  findFeature features targetId = None →
  ∃ kind msg,
    kind ≠ ToastSuccess ∧
    handleCreateDependency features h sourceId targetId w
    = (false, mkWorld (store w) (toasts w ++ [(kind, msg)])).
Proof.
  intros H. unfold handleCreateDependency.
  destruct (String.eqb sourceId targetId) eqn:Heq.
  { by exists ToastError, "A task cannot depend on itself". }
  destruct (dependencyExists features sourceId targetId) eqn:Hex.
  { by exists ToastInfo, "Dependency already exists". }
  destruct (wouldCreateCircularDependency features sourceId targetId) eqn:Hcyc.
  { by exists ToastError, "Cannot create circular dependency". }
  destruct (findFeature features targetId) as [target |] eqn:Hfind.
  { apply String.eqb_neq in Heq. destruct H as [? | [? | [? | ?]]]; congruence. }
  by exists ToastError, "Target task not found".
Qed.

(** The one way through all the checks. *)
Lemma handleCreateDependency_accepts features h sourceId targetId target w :
  sourceId ≠ targetId →
  dependencyExists features sourceId targetId = false →
  wouldCreateCircularDependency features sourceId targetId = false →
  findFeature features targetId = Some target →
  handleCreateDependency features h sourceId targetId w
  = (true,
     snd (toast ToastSuccess "Dependency created"
            (snd (optionalCall h targetId
                    (dependenciesUpdate (depsOf target ++ [sourceId])) w)))).
Proof.
  intros Hne Hex Hcyc Hfind. unfold handleCreateDependency.
  apply String.eqb_neq in Hne. rewrite Hne, Hex, Hcyc, Hfind.
  unfold mbind, M_bind, mret, M_ret.
  destruct (optionalCall _ _ _ w) as [[] w1]. simpl. done.
Qed.

(** Every call takes one of the two ways. *)
Lemma handleCreateDependency_cases features h sourceId targetId w :
  (∃ kind msg,
     handleCreateDependency features h sourceId targetId w
     = (false, mkWorld (store w) (toasts w ++ [(kind, msg)]))) ∨
  (sourceId ≠ targetId ∧
   dependencyExists features sourceId targetId = false ∧
   wouldCreateCircularDependency features sourceId targetId = false ∧
   ∃ target, findFeature features targetId = Some target).
Proof.
  destruct (decide (sourceId = targetId)) as [Heq | Hne];
    [left | destruct (dependencyExists features sourceId targetId) eqn:Hex;
      [left | destruct (wouldCreateCircularDependency features sourceId targetId)
                eqn:Hcyc;
        [left | destruct (findFeature features targetId) as [target |] eqn:Hfind;
          [right; eauto | left]]]].
  all: edestruct handleCreateDependency_rejects as (kind & msg & _ & Hr);
    [| exists kind, msg; exact Hr]; eauto.
Qed.

Lemma handleCreateDependency_true features h sourceId targetId w w' :
  handleCreateDependency features h sourceId targetId w = (true, w') →
  sourceId ≠ targetId ∧
  dependencyExists features sourceId targetId = false ∧
  wouldCreateCircularDependency features sourceId targetId = false ∧
  ∃ target, findFeature features targetId = Some target.
Proof.
  intros Hrun.
  destruct (handleCreateDependency_cases features h sourceId targetId w)
    as [(kind & msg & Hr) | Hok]; [congruence | done].
Qed.

(** What a call does to the store when the board's handler (or none) is
    wired in: nothing, or the update of the target's dependencies. *)
Lemma handleCreateDependency_store h sourceId targetId w :
  boardHandler h →
  store (snd (handleCreateDependency (store w) h sourceId targetId w)) = store w ∨
  ∃ target,
    findFeature (store w) targetId = Some target ∧
    sourceId ≠ targetId ∧
    wouldCreateCircularDependency (store w) sourceId targetId = false ∧
    store (snd (handleCreateDependency (store w) h sourceId targetId w))
    = updateFeature targetId
        (dependenciesUpdate (depsOf target ++ [sourceId])) (store w).
Proof.
  intros Hh.
  destruct (handleCreateDependency_cases (store w) h sourceId targetId w)
    as [(kind & msg & ->) | (Hne & Hex & Hcyc & target & Hfind)]; [by left |].
  rewrite (handleCreateDependency_accepts _ _ _ _ target) by done.
  destruct Hh; simpl; [by left |].
  right. by exists target.
Qed.

(** ** Invariants of the store under edge connections *)

Lemma tc_mono (R S : relation string) :
  (∀ d x, R d x → S d x) → ∀ a b, tc R a b → tc S a b.
Proof.
  intros Hsub a b H.
  induction H as [a b H | a b c H _ IH]; [by apply tc_once, Hsub |].
  eapply tc_l; [by apply Hsub | done].
Qed.

Lemma acyclic_updateFeature features sourceId targetId target :
  acyclic features →
  findFeature features targetId = Some target →
  wouldCreateCircularDependency features sourceId targetId = false →
  acyclic (updateFeature targetId
             (dependenciesUpdate (depsOf target ++ [sourceId])) features).
Proof.
  intros Hacyc Hfind Hcyc x Hx.
  assert (tc (withEdge (edge features) sourceId targetId) x x) as Hx'.
  { eapply tc_mono; [| exact Hx].
    intros d y. by apply edge_updateFeature. }
  apply tc_withEdge_cycle in Hx' as [Hback | Hold].
  - apply wouldCreateCircularDependency_spec in Hback. congruence.
  - by apply (Hacyc x).
Qed.

Lemma handleCreateDependency_acyclic h sourceId targetId w :
  boardHandler h →
  acyclic (store w) →
  acyclic (store (snd (handleCreateDependency (store w) h sourceId targetId w))).
Proof.
  intros Hh Hacyc.
  destruct (handleCreateDependency_store h sourceId targetId w Hh)
    as [-> | (target & Hfind & _ & Hcyc & ->)]; [done |].
  by apply acyclic_updateFeature.
Qed.

Lemma noSelfDependency_updateFeature features sourceId targetId target :
  noSelfDependency features →
  findFeature features targetId = Some target →
  sourceId ≠ targetId →
  noSelfDependency (updateFeature targetId
                      (dependenciesUpdate (depsOf target ++ [sourceId])) features).
Proof.
  intros Hinv Hfind Hne g Hg.
  apply findFeature_Some in Hfind as [Htarget Htid].
  apply elem_of_updateFeature in Hg as (f & Hf & [[Hfid ->] | [Hfid ->]]).
  - rewrite depsOf_applyPartial, applyPartial_id, Hfid, <- Htid.
    intros Hin. apply elem_of_app in Hin as [Hin | Hin].
    + by apply (Hinv target).
    + apply list_elem_of_singleton in Hin. congruence.
  - by apply Hinv.
Qed.

Lemma handleCreateDependency_noSelfDependency h sourceId targetId w :
  boardHandler h →
  noSelfDependency (store w) →
  noSelfDependency
    (store (snd (handleCreateDependency (store w) h sourceId targetId w))).
Proof.
  intros Hh Hinv.
  destruct (handleCreateDependency_store h sourceId targetId w Hh)
    as [-> | (target & Hfind & Hne & _ & ->)]; [done |].
  by apply noSelfDependency_updateFeature.
Qed.

(** Whatever every single connection preserves, a sequence preserves. *)
Lemma connectAll_preserves (P : list Feature.t → Prop) h :
  (∀ sourceId targetId w,
     P (store w) →
     P (store (snd (handleCreateDependency (store w) h sourceId targetId w)))) →
  ∀ connections w, P (store w) → P (store (snd (connectAll h connections w))).
Proof.
  intros Hstep connections.
  induction connections as [| [sourceId targetId] rest IH]; intros w HP; [done |].
  simpl. specialize (Hstep sourceId targetId w HP).
  destruct (handleCreateDependency (store w) h sourceId targetId w) as [ok w1].
  specialize (IH w1 Hstep).
  destruct (connectAll h rest w1) as [oks w2]. done.
Qed.

Lemma acyclic_without_dependencies features :
  Forall (fun f => depsOf f = []) features → acyclic features.
Proof.
  intros Hall x Hx.
  assert (∀ d y, ¬ edge features d y) as Hnone.
  { intros d y (f & Hf & _ & Hd).
    rewrite Forall_forall in Hall. rewrite (Hall f Hf) in Hd.
    by apply elem_of_nil in Hd. }
  inversion Hx as [? ? H | ? y ? H _]; by apply Hnone in H.
Qed.

(** C1: starting from an acyclic feature set, after any sequence of
    [handleCreateDependency] calls that each succeed, the dependency graph
    derived from the store has no cycle of any length. *)
Theorem connectAll_acyclic h connections w oks w' :
  boardHandler h →
  acyclic (store w) →
  connectAll h connections w = (oks, w') →
  Forall (fun ok => ok = true) oks →
  acyclic (store w').
Proof.
  intros Hh Hacyc Hrun _.
  change w' with (snd (oks, w')). rewrite <- Hrun.
  apply (connectAll_preserves acyclic h); [| done].
  intros sourceId targetId w0. by apply handleCreateDependency_acyclic.
Qed.

Lemma wouldCreateCircularDependency_correct_witness :
  dependencyExists [Sample.fA; Sample.fB_A; Sample.fC_B] "C" "A" = false ∧
  (wouldCreateCircularDependency [Sample.fA; Sample.fB_A; Sample.fC_B] "C" "A"
   = true ↔
   rtc (edge [Sample.fA; Sample.fB_A; Sample.fC_B]) "A" "C") ∧
  (wouldCreateCircularDependency [Sample.fA; Sample.fB_A; Sample.fC_B] "C" "A"
   = true ↔
   rtc (withEdge (edge [Sample.fA; Sample.fB_A; Sample.fC_B]) "C" "A") "A" "C").
Proof.
  split; [reflexivity |].
  apply (wouldCreateCircularDependency_correct
           [Sample.fA; Sample.fB_A; Sample.fC_B] "C" "A").
  reflexivity.
Defined.

Lemma connectAll_acyclic_witness :
  boardHandler (Some storeUpdate) ∧
  acyclic [Sample.fA; Sample.fB; Sample.fC] ∧
  acyclic [Sample.fA; Sample.fB_A; Sample.fC_B].
Proof.
  assert (acyclic [Sample.fA; Sample.fB; Sample.fC]) as Hacyc.
  { apply acyclic_without_dependencies. repeat constructor. }
  split; [constructor |]. split; [exact Hacyc |].
  apply (connectAll_acyclic (Some storeUpdate) [("A", "B"); ("B", "C")]
           (mkWorld [Sample.fA; Sample.fB; Sample.fC] [])
           [true; true]
           (mkWorld [Sample.fA; Sample.fB_A; Sample.fC_B]
              [(ToastSuccess, "Dependency created");
               (ToastSuccess, "Dependency created")])).
  - constructor.
  - exact Hacyc.
  - vm_compute. reflexivity.
  - repeat constructor.
Defined.

(** C3: a rejected connection (self-dependency, edge already there,
    would-be cycle, or target not found) returns false and leaves the
    feature store as it was, whatever handler is wired in. *)
Theorem handleCreateDependency_rejected_unchanged
  (features : list Feature.t) (h : option Handler)
  (sourceId targetId : string) (w : World) :
  sourceId = targetId ∨
  dependencyExists features sourceId targetId = true ∨
  wouldCreateCircularDependency features sourceId targetId = true ∨
  findFeature features targetId = None →
  fst (handleCreateDependency features h sourceId targetId w) = false ∧
  store (snd (handleCreateDependency features h sourceId targetId w)) = store w.
Proof.
  intros H.
  destruct (handleCreateDependency_rejects features h sourceId targetId w H)
    as (kind & msg & _ & ->).
  done.
Qed.

Lemma handleCreateDependency_rejected_unchanged_witness :
  wouldCreateCircularDependency [Sample.fA; Sample.fB_A] "B" "A" = true ∧
  fst (handleCreateDependency [Sample.fA; Sample.fB_A] (Some storeUpdate)
         "B" "A" (mkWorld [Sample.fA; Sample.fB_A] [])) = false ∧
  store (snd (handleCreateDependency [Sample.fA; Sample.fB_A] (Some storeUpdate)
                "B" "A" (mkWorld [Sample.fA; Sample.fB_A] [])))
  = [Sample.fA; Sample.fB_A].
Proof.
  split; [reflexivity |].
  apply (handleCreateDependency_rejected_unchanged
           [Sample.fA; Sample.fB_A] (Some storeUpdate) "B" "A"
           (mkWorld [Sample.fA; Sample.fB_A] [])).
  right. right. left. reflexivity.
Defined.

(** C4: connecting a node to itself is refused before anything is
    changed: the call returns false, shows the error toast and leaves the
    store alone; hence a store in which no feature lists its own id stays
    so under every sequence of connections. *)
Theorem self_dependency_rejected :
  (∀ features h sourceId w,
     handleCreateDependency features h sourceId sourceId w
     = (false,
        mkWorld (store w)
          (toasts w ++ [(ToastError, "A task cannot depend on itself")]))) ∧
  (∀ h connections w,
     boardHandler h →
     noSelfDependency (store w) →
     noSelfDependency (store (snd (connectAll h connections w)))).
Proof.
  split.
  - intros features h sourceId w. unfold handleCreateDependency.
    by rewrite String.eqb_refl.
  - intros h connections w Hh Hinv.
    apply (connectAll_preserves noSelfDependency h); [| done].
    intros sourceId targetId w0.
    by apply handleCreateDependency_noSelfDependency.
Qed.

Lemma noSelfDependency_sample :
  noSelfDependency [Sample.fA; Sample.fB_A].
Proof.
  intros f Hf.
  apply elem_of_cons in Hf as [-> | Hf]; [by intros ?%elem_of_nil |].
  apply list_elem_of_singleton in Hf as ->.
  intros Hin. apply list_elem_of_singleton in Hin. discriminate.
Qed.

Lemma self_dependency_rejected_witness :
  noSelfDependency [Sample.fA; Sample.fB_A] ∧
  noSelfDependency
    (store (snd (connectAll (Some storeUpdate) [("A", "A"); ("B", "A"); ("C", "B")]
                   (mkWorld [Sample.fA; Sample.fB_A] [])))).
Proof.
  split; [exact noSelfDependency_sample |].
  apply (proj2 self_dependency_rejected (Some storeUpdate)
           [("A", "A"); ("B", "A"); ("C", "B")]
           (mkWorld [Sample.fA; Sample.fB_A] [])).
  - constructor.
  - exact noSelfDependency_sample.
Defined.

(** ** What a successful connection and a deletion do to the target *)

(** C5 does not hold when the optional handler is left out: the call
    still reports success, but the target keeps its dependencies and the
    edge is not there. *)
Lemma handleCreateDependency_without_handler :
  dependencyExists [Sample.fA; Sample.fB] "A" "B" = false ∧
  fst (handleCreateDependency [Sample.fA; Sample.fB] None "A" "B"
         (mkWorld [Sample.fA; Sample.fB] [])) = true ∧
  depsOf <$>
    findFeature
      (store (snd (handleCreateDependency [Sample.fA; Sample.fB] None "A" "B"
                     (mkWorld [Sample.fA; Sample.fB] [])))) "B"
  ≠ Some (depsOf Sample.fB ++ ["A"]) ∧
  dependencyExists
    (store (snd (handleCreateDependency [Sample.fA; Sample.fB] None "A" "B"
                   (mkWorld [Sample.fA; Sample.fB] [])))) "A" "B" = false.
Proof. vm_compute. repeat split; congruence. Qed.

Lemma not_dependencyExists_target features sourceId targetId target :
  dependencyExists features sourceId targetId = false →
  findFeature features targetId = Some target →
  sourceId ∉ depsOf target.
Proof.
  intros Hex Hfind Hin.
  apply findFeature_Some in Hfind as [Htarget Hid].
  assert (dependencyExists features sourceId targetId = true) as Hyes.
  { apply dependencyExists_spec. by exists target. }
  congruence.
Qed.

(** C5 (amended): with the store's handler wired in, a call that returns
    true has set the target's dependencies to its previous ones followed
    by [sourceId] and changed nothing else of it; afterwards the direct
    edge exists, and dependencies that held no id twice still hold none
    twice. *)
Theorem handleCreateDependency_adds_dependency
  (sourceId targetId : string) (w w' : World) :
  handleCreateDependency (store w) (Some storeUpdate) sourceId targetId w
  = (true, w') →
  ∃ target target',
    findFeature (store w) targetId = Some target ∧
    findFeature (store w') targetId = Some target' ∧
    Feature.dependencies target' = Some (depsOf target ++ [sourceId]) ∧
    Feature.title target' = Feature.title target ∧
    Feature.status target' = Feature.status target ∧
    Feature.branchName target' = Feature.branchName target ∧
    dependencyExists (store w') sourceId targetId = true ∧
    (NoDup (depsOf target) → NoDup (depsOf target')).
Proof.
  intros Hrun.
  pose proof (handleCreateDependency_true _ _ _ _ _ _ Hrun)
    as (Hne & Hex & Hcyc & target & Hfind).
  rewrite (handleCreateDependency_accepts _ _ _ _ target) in Hrun by done.
  injection Hrun as <-. simpl.
  set (u := dependenciesUpdate (depsOf target ++ [sourceId])).
  pose proof (findFeature_updateFeature targetId u _ _ Hfind) as Hfind'.
  exists target, (applyPartial target u).
  repeat split; try done.
  - apply dependencyExists_spec.
    apply findFeature_Some in Hfind' as [Hin Hid].
    exists (applyPartial target u). split; [done |]. split; [done |].
    unfold u. rewrite depsOf_applyPartial.
    apply elem_of_app. right. by apply list_elem_of_singleton.
  - intros Hnodup. unfold u. rewrite depsOf_applyPartial.
    apply NoDup_app. split; [done |]. split; [| apply NoDup_singleton].
    intros x Hx Hx'. apply list_elem_of_singleton in Hx' as ->.
    by eapply not_dependencyExists_target.
Qed.

Lemma handleCreateDependency_adds_dependency_witness :
  ∃ target target',
    findFeature [Sample.fA; Sample.fB_A; Sample.fC] "C" = Some target ∧
    findFeature [Sample.fA; Sample.fB_A; Sample.task "C" (Some ["A"])] "C"
    = Some target' ∧
    Feature.dependencies target' = Some (depsOf target ++ ["A"]) ∧
    Feature.title target' = Feature.title target ∧
    Feature.status target' = Feature.status target ∧
    Feature.branchName target' = Feature.branchName target ∧
    dependencyExists [Sample.fA; Sample.fB_A; Sample.task "C" (Some ["A"])]
      "A" "C" = true ∧
    (NoDup (depsOf target) → NoDup (depsOf target')).
Proof.
  apply (handleCreateDependency_adds_dependency "A" "C"
           (mkWorld [Sample.fA; Sample.fB_A; Sample.fC] [])
           (mkWorld [Sample.fA; Sample.fB_A; Sample.task "C" (Some ["A"])]
              [(ToastSuccess, "Dependency created")])).
  vm_compute. reflexivity.
Defined.

(** C6 does not hold when the optional handler is left out: deleting a
    dependency then removes nothing. *)
Lemma onDeleteDependency_without_handler :
  findFeature [Sample.fA; Sample.fB_A] "B" = Some Sample.fB_A ∧
  findFeature
    (store (snd (onDeleteDependency [Sample.fA; Sample.fB_A] None "A" "B"
                   (mkWorld [Sample.fA; Sample.fB_A] [])))) "B"
  = Some Sample.fB_A ∧
  "A" ∈ depsOf Sample.fB_A.
Proof.
  split; [reflexivity |]. split; [reflexivity |].
  apply list_elem_of_singleton. reflexivity.
Qed.

Lemma onDeleteDependency_store features sourceId targetId target w :
  findFeature features targetId = Some target →
  store (snd (onDeleteDependency features (Some storeUpdate)
                sourceId targetId w))
  = updateFeature targetId
      (dependenciesUpdate
         (List.filter (fun depId => negb (String.eqb depId sourceId))
            (depsOf target)))
      (store w).
Proof. intros Hfind. unfold onDeleteDependency. by rewrite Hfind. Qed.

Lemma elem_of_without sourceId (deps : list string) d :
  d ∈ List.filter (fun depId => negb (String.eqb depId sourceId)) deps ↔
  d ∈ deps ∧ d ≠ sourceId.
Proof.
  rewrite !list_elem_of_In, filter_In, negb_true_iff, String.eqb_neq. done.
Qed.

(** C6 (amended): with the store's handler wired in and the target in the
    feature set, [onDeleteDependency] leaves the target in place with its
    dependencies filtered: no occurrence of [sourceId] remains, every
    other entry stays (in order), its other fields are untouched, and
    every feature with another id is unchanged at its position. *)
Theorem onDeleteDependency_frame
  (sourceId targetId : string) (target : Feature.t) (w : World) :
  findFeature (store w) targetId = Some target →
  ∃ target',
    findFeature
      (store (snd (onDeleteDependency (store w) (Some storeUpdate)
                     sourceId targetId w))) targetId = Some target' ∧
    Feature.dependencies target'
    = Some (List.filter (fun depId => negb (String.eqb depId sourceId))
              (depsOf target)) ∧
    (sourceId ∉ depsOf target') ∧
    (∀ d, d ≠ sourceId → (d ∈ depsOf target' ↔ d ∈ depsOf target)) ∧
    Feature.title target' = Feature.title target ∧
    Feature.status target' = Feature.status target ∧
    Feature.branchName target' = Feature.branchName target ∧
    length (store (snd (onDeleteDependency (store w) (Some storeUpdate)
                          sourceId targetId w)))
    = length (store w) ∧
    (∀ (i : nat) f,
       store w !! i = Some f → Feature.id f ≠ targetId →
       store (snd (onDeleteDependency (store w) (Some storeUpdate)
                     sourceId targetId w)) !! i = Some f).
Proof.
  intros Hfind.
  rewrite (onDeleteDependency_store _ _ _ target) by done.
  set (u := dependenciesUpdate _).
  exists (applyPartial target u).
  split; [by apply findFeature_updateFeature |].
  split; [done |].
  split; [| split; [| repeat split]].
  - unfold u. rewrite depsOf_applyPartial, elem_of_without. tauto.
  - intros d Hd. unfold u. rewrite depsOf_applyPartial, elem_of_without. tauto.
  - apply length_updateFeature.
  - intros i f Hi Hne. by apply lookup_updateFeature_ne.
Qed.

Lemma onDeleteDependency_frame_witness :
  findFeature [Sample.fA; Sample.fB_A; Sample.fC_B] "B" = Some Sample.fB_A ∧
  ∃ target',
    findFeature
      (store (snd (onDeleteDependency [Sample.fA; Sample.fB_A; Sample.fC_B]
                     (Some storeUpdate) "A" "B"
                     (mkWorld [Sample.fA; Sample.fB_A; Sample.fC_B] []))))
      "B" = Some target' ∧
    Feature.dependencies target'
    = Some (List.filter (fun depId => negb (String.eqb depId "A"))
              (depsOf Sample.fB_A)) ∧
    ("A" ∉ depsOf target') ∧
    (∀ d, d ≠ "A" → (d ∈ depsOf target' ↔ d ∈ depsOf Sample.fB_A)) ∧
    Feature.title target' = Feature.title Sample.fB_A ∧
    Feature.status target' = Feature.status Sample.fB_A ∧
    Feature.branchName target' = Feature.branchName Sample.fB_A ∧
    length
      (store (snd (onDeleteDependency [Sample.fA; Sample.fB_A; Sample.fC_B]
                     (Some storeUpdate) "A" "B"
                     (mkWorld [Sample.fA; Sample.fB_A; Sample.fC_B] []))))
    = 3%nat ∧
    (∀ (i : nat) f,
       [Sample.fA; Sample.fB_A; Sample.fC_B] !! i = Some f →
       Feature.id f ≠ "B" →
       store (snd (onDeleteDependency [Sample.fA; Sample.fB_A; Sample.fC_B]
                     (Some storeUpdate) "A" "B"
                     (mkWorld [Sample.fA; Sample.fB_A; Sample.fC_B] [])))
       !! i = Some f).
Proof.
  split; [reflexivity |].
  apply (onDeleteDependency_frame "A" "B" Sample.fB_A
           (mkWorld [Sample.fA; Sample.fB_A; Sample.fC_B] [])).
  reflexivity.
Defined.

(** ** The features shown in the graph *)

Section Filtered.

Variable isPrimaryWorktreeBranch : string → string → bool.
Variable features : list Feature.t.
Variables currentWorktreePath currentWorktreeBranch projectPath : option string.

Lemma elem_of_filteredFeatures f :
  f ∈ filteredFeatures isPrimaryWorktreeBranch features
        currentWorktreePath currentWorktreeBranch projectPath →
  f ∈ features ∧ Feature.status f ≠ "completed".
Proof.
  unfold filteredFeatures. rewrite !list_elem_of_In, filter_In.
  intros [Hin Hkeep]. split; [done |].
  destruct (String.eqb (Feature.status f) "completed") eqn:Hst; [done |].
  by apply String.eqb_neq.
Qed.

(** C7: a feature that is not completed and has no branch is shown
    exactly when the view is on the primary worktree
    ([currentWorktreePath] is null). *)
Theorem filteredFeatures_without_branch (f : Feature.t) :
  f ∈ features →
  Feature.status f ≠ "completed" →
  Feature.branchName f = None →
  f ∈ filteredFeatures isPrimaryWorktreeBranch features
        currentWorktreePath currentWorktreeBranch projectPath
  ↔ currentWorktreePath = None.
Proof.
  intros Hin Hst Hbr. unfold filteredFeatures.
  rewrite list_elem_of_In, filter_In, <- list_elem_of_In.
  apply String.eqb_neq in Hst. rewrite Hst, Hbr. simpl.
  rewrite bool_decide_eq_true. tauto.
Qed.

(** C8: no completed feature is ever shown, whatever the worktree. *)
Theorem filteredFeatures_not_completed :
  Forall (fun f => Feature.status f ≠ "completed")
    (filteredFeatures isPrimaryWorktreeBranch features
       currentWorktreePath currentWorktreeBranch projectPath).
Proof.
  apply Forall_forall. intros f Hf.
  by apply elem_of_filteredFeatures in Hf as [_ Hst].
Qed.

End Filtered.

Lemma filteredFeatures_without_branch_witness :
  Sample.fA ∈ [Sample.fA; Sample.task "D" None] ∧
  (Sample.fA ∈ filteredFeatures (fun _ _ => false)
                 [Sample.fA; Sample.task "D" None] None (Some "main") None
   ↔ (None : option string) = None).
Proof.
  split; [by left |].
  apply (filteredFeatures_without_branch (fun _ _ => false)
           [Sample.fA; Sample.task "D" None] None (Some "main") None Sample.fA).
  - by left.
  - discriminate.
  - reflexivity.
Defined.

(** ** Sessions *)

Lemma validateSession_true now token (sessions : gmap string Auth.Session) :
  fst (Auth.validateSession now token sessions) = true ↔
  ∃ session, sessions !! token = Some session ∧ now ≤ Auth.expiresAt session.
Proof.
  unfold Auth.validateSession.
  destruct (sessions !! token) as [session |] eqn:Hlook; simpl.
  - destruct (bool_decide (now > Auth.expiresAt session)) eqn:Hexp; simpl.
    + apply bool_decide_eq_true in Hexp. split; [done |].
      intros (s & [= <-] & Hle). lia.
    + apply bool_decide_eq_false in Hexp. split; [| done].
      intros _. exists session. split; [done | lia].
  - split; [done |]. by intros (s & ? & _).
Qed.

Lemma validateSession_unknown now token (sessions : gmap string Auth.Session) :
  sessions !! token = None →
  Auth.validateSession now token sessions = (false, sessions).
Proof. intros H. unfold Auth.validateSession. by rewrite H. Qed.

Lemma validateSession_expired
  now token session (sessions : gmap string Auth.Session) :
  sessions !! token = Some session → now > Auth.expiresAt session →
  Auth.validateSession now token sessions = (false, delete token sessions).
Proof.
  intros H Hexp. unfold Auth.validateSession. rewrite H.
  by rewrite bool_decide_eq_true_2.
Qed.

(** Validation never adds a session. *)
Lemma validateSession_keeps_absent
  now token token' (sessions : gmap string Auth.Session) :
  sessions !! token = None →
  snd (Auth.validateSession now token' sessions) !! token = None.
Proof.
  intros Habs. unfold Auth.validateSession.
  destruct (sessions !! token') as [session |]; simpl; [| done].
  destruct (bool_decide (now > Auth.expiresAt session)); simpl; [| done].
  rewrite lookup_delete. by case_decide.
Qed.

Lemma validateAll_keeps_absent
  calls token (sessions : gmap string Auth.Session) :
  sessions !! token = None → Auth.validateAll calls sessions !! token = None.
Proof.
  revert sessions.
  induction calls as [| [now token'] rest IH]; intros sessions Habs; [done |].
  simpl. by apply IH, validateSession_keeps_absent.
Qed.

(** A session just created is valid until its thirty days are over. *)
Lemma createSession_valid token now now' (sessions : gmap string Auth.Session) :
  now' ≤ now + Auth.SESSION_MAX_AGE_MS →
  fst (Auth.validateSession now' token
         (snd (Auth.createSession token now sessions))) = true.
Proof.
  intros Hle. apply validateSession_true.
  exists (Auth.mkSession now (now + Auth.SESSION_MAX_AGE_MS)).
  split; [apply lookup_insert_eq | done].
Qed.

(** C10: [validateSession] returns true exactly for a stored token whose
    [expiresAt] the clock has not passed; an expired token is deleted, so
    that every later validation of it returns false; a valid or an unknown
    token leaves the store as it is. *)
Theorem validateSession_correct
  (now : Z) (token : string) (sessions : gmap string Auth.Session) :
  (fst (Auth.validateSession now token sessions) = true ↔
   ∃ session, sessions !! token = Some session ∧ now ≤ Auth.expiresAt session) ∧
  (∀ session,
     sessions !! token = Some session → now > Auth.expiresAt session →
     snd (Auth.validateSession now token sessions) = delete token sessions ∧
     ∀ calls now',
       fst (Auth.validateSession now' token
              (Auth.validateAll calls
                 (snd (Auth.validateSession now token sessions)))) = false) ∧
  (fst (Auth.validateSession now token sessions) = true ∨
   sessions !! token = None →
   snd (Auth.validateSession now token sessions) = sessions).
Proof.
  split; [apply validateSession_true |]. split.
  - intros session Hlook Hexp.
    rewrite (validateSession_expired _ _ session) by done. simpl.
    split; [done |]. intros calls now'.
    rewrite validateSession_unknown; [done |].
    apply validateAll_keeps_absent, lookup_delete_eq.
  - intros [Hok | Habs].
    + unfold Auth.validateSession in *.
      destruct (sessions !! token) as [session |]; [| done].
      by destruct (bool_decide (now > Auth.expiresAt session)).
    + by rewrite validateSession_unknown.
Qed.

Lemma validateSession_correct_witness :
  Sample.sessions !! "tok" = Some (Auth.mkSession 0 10) ∧
  snd (Auth.validateSession 11 "tok" Sample.sessions)
  = delete "tok" Sample.sessions ∧
  ∀ calls now',
    fst (Auth.validateSession now' "tok"
           (Auth.validateAll calls
              (snd (Auth.validateSession 11 "tok" Sample.sessions)))) = false.
Proof.
  split; [reflexivity |].
  apply (proj1 (proj2 (validateSession_correct 11 "tok" Sample.sessions))
           (Auth.mkSession 0 10)).
  - reflexivity.
  - reflexivity.
Defined.

(** ** The authentication middleware *)

(** C9 does not hold for an empty header value: an empty [X-API-Key]
    header differs from the key and yet does not stop a valid session
    token from being accepted. *)
Lemma authMiddleware_empty_api_key_header :
  "" ≠ "secret" ∧
  fst (Auth.validateSession 5 "tok" Sample.sessions) = true ∧
  Auth.authMiddleware "secret" 5
    (Auth.mkRequest (Some "") (Some "tok") None None) Sample.sessions
  = (Auth.Next, Sample.sessions).
Proof. split; [discriminate |]. split; reflexivity. Qed.

Lemma whenTruthy_Some (s : option string) v :
  s = Some v → v ≠ "" → whenTruthy s = Some v.
Proof.
  intros -> Hne. unfold whenTruthy.
  apply String.eqb_neq in Hne. by rewrite Hne.
Qed.

(** C9 (amended): the credentials are tried in the order API-key header,
    session-token header, [apiKey] query parameter, session cookie, and
    the first one that is present and not empty decides alone: a wrong
    one is answered with 403 whatever the later ones hold. *)
Theorem authMiddleware_first_credential_decides
  (API_KEY : string) (now : Z) (req : Auth.Request)
  (sessions : gmap string Auth.Session) :
  (∀ key,
     Auth.header_x_api_key req = Some key → key ≠ "" → key ≠ API_KEY →
     Auth.authMiddleware API_KEY now req sessions
     = (Auth.Status 403 "Invalid API key.", sessions)) ∧
  (∀ token,
     whenTruthy (Auth.header_x_api_key req) = None →
     Auth.header_x_session_token req = Some token → token ≠ "" →
     fst (Auth.validateSession now token sessions) = false →
     fst (Auth.authMiddleware API_KEY now req sessions)
     = Auth.Status 403 "Invalid or expired session token.") ∧
  (∀ key,
     whenTruthy (Auth.header_x_api_key req) = None →
     whenTruthy (Auth.header_x_session_token req) = None →
     Auth.query_apiKey req = Some key → key ≠ "" → key ≠ API_KEY →
     Auth.authMiddleware API_KEY now req sessions
     = (Auth.Status 403 "Invalid API key.", sessions)).
Proof.
  unfold Auth.authMiddleware. repeat split.
  - intros key Hkey Hne Hwrong.
    rewrite (whenTruthy_Some _ key) by done.
    apply String.eqb_neq in Hwrong. by rewrite Hwrong.
  - intros token -> Htok Hne Hbad.
    rewrite (whenTruthy_Some _ token) by done.
    destruct (Auth.validateSession now token sessions) as [ok sessions'].
    simpl in Hbad. by rewrite Hbad.
  - intros key -> -> Hkey Hne Hwrong.
    rewrite (whenTruthy_Some _ key) by done.
    apply String.eqb_neq in Hwrong. by rewrite Hwrong.
Qed.

Lemma authMiddleware_first_credential_decides_witness :
  fst (Auth.validateSession 5 "tok" Sample.sessions) = true ∧
  Auth.authMiddleware "secret" 5
    (Auth.mkRequest (Some "guess") (Some "tok") (Some "secret")
       (Some {[Auth.SESSION_COOKIE_NAME := "tok"]}))
    Sample.sessions
  = (Auth.Status 403 "Invalid API key.", Sample.sessions).
Proof.
  split; [reflexivity |].
  apply (proj1 (authMiddleware_first_credential_decides "secret" 5
                  (Auth.mkRequest (Some "guess") (Some "tok") (Some "secret")
                     (Some {[Auth.SESSION_COOKIE_NAME := "tok"]}))
                  Sample.sessions) "guess").
  - reflexivity.
  - discriminate.
  - discriminate.
Defined.

(** ** Editing sessions: connecting and disconnecting *)

Lemma onDeleteDependency_cases h sourceId targetId w :
  boardHandler h →
  store (snd (onDeleteDependency (store w) h sourceId targetId w)) = store w ∨
  ∃ target,
    findFeature (store w) targetId = Some target ∧
    store (snd (onDeleteDependency (store w) h sourceId targetId w))
    = updateFeature targetId
        (dependenciesUpdate
           (List.filter (fun depId => negb (String.eqb depId sourceId))
              (depsOf target)))
        (store w).
Proof.
  intros Hh. unfold onDeleteDependency.
  destruct (findFeature (store w) targetId) as [target |] eqn:Hfind;
    [| by left].
  destruct Hh; [by left |]. right. by exists target.
Qed.

Lemma onDeleteDependency_acyclic h sourceId targetId w :
  boardHandler h →
  acyclic (store w) →
  acyclic (store (snd (onDeleteDependency (store w) h sourceId targetId w))).
Proof.
  intros Hh Hacyc.
  destruct (onDeleteDependency_cases h sourceId targetId w Hh)
    as [-> | (target & Hfind & ->)]; [done |].
  intros x Hx. apply (Hacyc x).
  eapply tc_mono; [| exact Hx].
  intros d y. apply (edge_updateFeature_sub _ _ target); [done |].
  intros z Hz. apply elem_of_without in Hz. tauto.
Qed.

Lemma onDeleteDependency_noSelfDependency h sourceId targetId w :
  boardHandler h →
  noSelfDependency (store w) →
  noSelfDependency
    (store (snd (onDeleteDependency (store w) h sourceId targetId w))).
Proof.
  intros Hh Hinv.
  destruct (onDeleteDependency_cases h sourceId targetId w Hh)
    as [-> | (target & Hfind & ->)]; [done |].
  intros g Hg.
  apply findFeature_Some in Hfind as [Htarget Htid].
  apply elem_of_updateFeature in Hg as (f & Hf & [[Hfid ->] | [Hfid ->]]).
  - rewrite depsOf_applyPartial, applyPartial_id, Hfid, <- Htid.
    rewrite elem_of_without. intros [Hin _]. by apply (Hinv target).
  - by apply Hinv.
Qed.

Lemma runActions_preserves (P : list Feature.t → Prop) h :
  (∀ a w, P (store w) → P (store (snd (runAction h a w)))) →
  ∀ actions w, P (store w) → P (store (snd (runActions h actions w))).
Proof.
  intros Hstep actions.
  induction actions as [| a rest IH]; intros w HP; [done |].
  simpl. by apply IH, Hstep.
Qed.

(** X1: Connecting and disconnecting, in any order and whether or not the
    single edits succeed, never make the dependency graph cyclic. *)
Theorem runActions_acyclic
  (h : option Handler) (actions : list GraphAction) (w : World) :
  boardHandler h →
  acyclic (store w) →
  acyclic (store (snd (runActions h actions w))).
Proof.
  intros Hh. apply (runActions_preserves acyclic h).
  intros [sourceId targetId | sourceId targetId] w0 Hacyc; simpl.
  - by apply handleCreateDependency_acyclic.
  - by apply onDeleteDependency_acyclic.
Qed.

Lemma runActions_acyclic_witness :
  acyclic [Sample.fA; Sample.fB; Sample.fC] ∧
  acyclic
    (store (snd (runActions (Some storeUpdate)
                   [Connect "A" "B"; Connect "B" "C"; Disconnect "A" "B";
                    Connect "C" "A"; Connect "A" "B"]
                   (mkWorld [Sample.fA; Sample.fB; Sample.fC] [])))).
Proof.
  assert (acyclic [Sample.fA; Sample.fB; Sample.fC]) as Hacyc.
  { apply acyclic_without_dependencies. repeat constructor. }
  split; [exact Hacyc |].
  apply (runActions_acyclic (Some storeUpdate)
           [Connect "A" "B"; Connect "B" "C"; Disconnect "A" "B";
            Connect "C" "A"; Connect "A" "B"]
           (mkWorld [Sample.fA; Sample.fB; Sample.fC] [])).
  - constructor.
  - exact Hacyc.
Defined.

(** X2: No edit of the graph ever makes a feature depend on itself. *)
Theorem runActions_noSelfDependency
  (h : option Handler) (actions : list GraphAction) (w : World) :
  boardHandler h →
  noSelfDependency (store w) →
  noSelfDependency (store (snd (runActions h actions w))).
Proof.
  intros Hh. apply (runActions_preserves noSelfDependency h).
  intros [sourceId targetId | sourceId targetId] w0 Hinv; simpl.
  - by apply handleCreateDependency_noSelfDependency.
  - by apply onDeleteDependency_noSelfDependency.
Qed.

Lemma runActions_noSelfDependency_witness :
  noSelfDependency [Sample.fA; Sample.fB_A] ∧
  noSelfDependency
    (store (snd (runActions (Some storeUpdate)
                   [Connect "B" "B"; Disconnect "A" "B"; Connect "B" "A"]
                   (mkWorld [Sample.fA; Sample.fB_A] [])))).
Proof.
  split; [exact noSelfDependency_sample |].
  apply (runActions_noSelfDependency (Some storeUpdate)
           [Connect "B" "B"; Disconnect "A" "B"; Connect "B" "A"]
           (mkWorld [Sample.fA; Sample.fB_A] [])).
  - constructor.
  - exact noSelfDependency_sample.
Defined.

Lemma without_absent sourceId (deps : list string) :
  sourceId ∉ deps →
  List.filter (fun depId => negb (String.eqb depId sourceId)) deps = deps.
Proof.
  intros Hnot. induction deps as [| d deps IH]; simpl; [done |].
  apply not_elem_of_cons in Hnot as [Hne Hnot].
  assert (String.eqb d sourceId = false) as -> by (apply String.eqb_neq; congruence).
  simpl. by rewrite IH.
Qed.

Lemma without_appended sourceId (deps : list string) :
  sourceId ∉ deps →
  List.filter (fun depId => negb (String.eqb depId sourceId))
    (deps ++ [sourceId]) = deps.
Proof.
  intros Hnot. rewrite List.filter_app, without_absent by done. simpl.
  rewrite String.eqb_refl. simpl. apply app_nil_r.
Qed.

Lemma without_idempotent sourceId (deps : list string) :
  List.filter (fun depId => negb (String.eqb depId sourceId))
    (List.filter (fun depId => negb (String.eqb depId sourceId)) deps)
  = List.filter (fun depId => negb (String.eqb depId sourceId)) deps.
Proof.
  apply without_absent. rewrite elem_of_without. tauto.
Qed.

(** Two updates of the dependencies of the same id: the second wins. *)
Lemma updateFeature_twice featureId deps1 deps2 features :
  updateFeature featureId (dependenciesUpdate deps2)
    (updateFeature featureId (dependenciesUpdate deps1) features)
  = updateFeature featureId (dependenciesUpdate deps2) features.
Proof.
  unfold updateFeature. rewrite <- list_fmap_compose.
  apply list_fmap_ext. intros i f _. simpl.
  destruct (String.eqb (Feature.id f) featureId) eqn:Hid; simpl;
    by rewrite Hid.
Qed.

(** What an accepted connection does to the store behind the board's
    handler. *)
Lemma handleCreateDependency_accepted_store sourceId targetId w w' :
  handleCreateDependency (store w) (Some storeUpdate) sourceId targetId w
  = (true, w') →
  ∃ target,
    findFeature (store w) targetId = Some target ∧
    sourceId ≠ targetId ∧
    (sourceId ∉ depsOf target) ∧
    store w' = updateFeature targetId
                 (dependenciesUpdate (depsOf target ++ [sourceId])) (store w) ∧
    toasts w' = toasts w ++ [(ToastSuccess, "Dependency created")].
Proof.
  intros Hrun.
  pose proof (handleCreateDependency_true _ _ _ _ _ _ Hrun)
    as (Hne & Hex & Hcyc & target & Hfind).
  rewrite (handleCreateDependency_accepts _ _ _ _ target) in Hrun by done.
  injection Hrun as <-. exists target.
  split; [done |]. split; [done |].
  split; [by eapply not_dependencyExists_target | done].
Qed.

(** X3: Disconnecting an edge that was just connected gives the target its
    previous list of dependencies back and leaves the rest of the store
    as it was before the connection. *)
Theorem connect_then_disconnect
  (sourceId targetId : string) (w w1 : World) :
  handleCreateDependency (store w) (Some storeUpdate) sourceId targetId w
  = (true, w1) →
  ∃ target target2,
    findFeature (store w) targetId = Some target ∧
    findFeature
      (store (snd (onDeleteDependency (store w1) (Some storeUpdate)
                     sourceId targetId w1))) targetId = Some target2 ∧
    depsOf target2 = depsOf target ∧
    Feature.title target2 = Feature.title target ∧
    Feature.status target2 = Feature.status target ∧
    Feature.branchName target2 = Feature.branchName target ∧
    (∀ (i : nat) f,
       store w !! i = Some f → Feature.id f ≠ targetId →
       store (snd (onDeleteDependency (store w1) (Some storeUpdate)
                     sourceId targetId w1)) !! i = Some f).
Proof.
  intros Hrun.
  apply handleCreateDependency_accepted_store in Hrun
    as (target & Hfind & Hne & Hnot & Hstore & _).
  set (u1 := dependenciesUpdate (depsOf target ++ [sourceId])) in *.
  assert (findFeature (store w1) targetId = Some (applyPartial target u1))
    as Hfind1.
  { rewrite Hstore. by apply findFeature_updateFeature. }
  rewrite (onDeleteDependency_store _ _ _ _ _ Hfind1).
  unfold u1 at 1. rewrite depsOf_applyPartial, without_appended by done.
  rewrite Hstore. unfold u1. rewrite updateFeature_twice.
  exists target, (applyPartial target (dependenciesUpdate (depsOf target))).
  split; [done |].
  split; [apply (findFeature_updateFeature _ _ _ _ Hfind) |].
  repeat split; try done.
  intros i f Hi Hid.
  rewrite depsOf_applyPartial, updateFeature_twice.
  by apply lookup_updateFeature_ne.
Qed.

Lemma connect_then_disconnect_witness :
  ∃ target target2,
    findFeature [Sample.fA; Sample.fB_A; Sample.fC] "B" = Some target ∧
    findFeature
      (store (snd (onDeleteDependency
                     [Sample.fA; Sample.task "B" (Some ["A"; "C"]); Sample.fC]
                     (Some storeUpdate) "C" "B"
                     (mkWorld
                        [Sample.fA; Sample.task "B" (Some ["A"; "C"]); Sample.fC]
                        [(ToastSuccess, "Dependency created")])))) "B"
    = Some target2 ∧
    depsOf target2 = depsOf target ∧
    Feature.title target2 = Feature.title target ∧
    Feature.status target2 = Feature.status target ∧
    Feature.branchName target2 = Feature.branchName target ∧
    (∀ (i : nat) f,
       [Sample.fA; Sample.fB_A; Sample.fC] !! i = Some f →
       Feature.id f ≠ "B" →
       store (snd (onDeleteDependency
                     [Sample.fA; Sample.task "B" (Some ["A"; "C"]); Sample.fC]
                     (Some storeUpdate) "C" "B"
                     (mkWorld
                        [Sample.fA; Sample.task "B" (Some ["A"; "C"]); Sample.fC]
                        [(ToastSuccess, "Dependency created")]))) !! i
       = Some f).
Proof.
  apply (connect_then_disconnect "C" "B"
           (mkWorld [Sample.fA; Sample.fB_A; Sample.fC] [])
           (mkWorld [Sample.fA; Sample.task "B" (Some ["A"; "C"]); Sample.fC]
              [(ToastSuccess, "Dependency created")])).
  vm_compute. reflexivity.
Defined.

(** X4: Disconnecting the same edge a second time changes nothing more. *)
Theorem onDeleteDependency_idempotent
  (h : option Handler) (sourceId targetId : string) (w : World) :
  boardHandler h →
  store (snd (onDeleteDependency
                (store (snd (onDeleteDependency (store w) h sourceId targetId w)))
                h sourceId targetId
                (snd (onDeleteDependency (store w) h sourceId targetId w))))
  = store (snd (onDeleteDependency (store w) h sourceId targetId w)).
Proof.
  intros [|].
  - unfold onDeleteDependency.
    destruct (findFeature (store w) targetId) as [target |] eqn:Hfind; simpl.
    + by rewrite Hfind.
    + by rewrite Hfind.
  - destruct (findFeature (store w) targetId) as [target |] eqn:Hfind.
    + set (w1 := snd (onDeleteDependency (store w) (Some storeUpdate)
                        sourceId targetId w)).
      pose proof (onDeleteDependency_store (store w) sourceId targetId
                    target w Hfind) as Hstore.
      fold w1 in Hstore.
      set (deps := List.filter _ (depsOf target)) in Hstore.
      rewrite (onDeleteDependency_store (store w1) _ _
                 (applyPartial target (dependenciesUpdate deps))).
      * rewrite depsOf_applyPartial. unfold deps.
        rewrite without_idempotent, Hstore. apply updateFeature_twice.
      * rewrite Hstore. by apply findFeature_updateFeature.
    + unfold onDeleteDependency. rewrite Hfind. simpl. by rewrite Hfind.
Qed.

Lemma onDeleteDependency_idempotent_witness :
  boardHandler (Some storeUpdate) ∧
  store (snd (onDeleteDependency
                (store (snd (onDeleteDependency [Sample.fA; Sample.fB_A]
                               (Some storeUpdate) "A" "B"
                               (mkWorld [Sample.fA; Sample.fB_A] []))))
                (Some storeUpdate) "A" "B"
                (snd (onDeleteDependency [Sample.fA; Sample.fB_A]
                        (Some storeUpdate) "A" "B"
                        (mkWorld [Sample.fA; Sample.fB_A] [])))))
  = store (snd (onDeleteDependency [Sample.fA; Sample.fB_A]
                  (Some storeUpdate) "A" "B"
                  (mkWorld [Sample.fA; Sample.fB_A] []))).
Proof.
  split; [constructor |].
  apply (onDeleteDependency_idempotent (Some storeUpdate) "A" "B"
           (mkWorld [Sample.fA; Sample.fB_A] [])).
  constructor.
Defined.

Lemma edge_after_connection sourceId targetId w w' :
  handleCreateDependency (store w) (Some storeUpdate) sourceId targetId w
  = (true, w') →
  edge (store w') sourceId targetId.
Proof.
  intros Hrun.
  apply handleCreateDependency_accepted_store in Hrun
    as (target & Hfind & _ & _ & Hstore & _).
  set (u := dependenciesUpdate (depsOf target ++ [sourceId])) in *.
  pose proof (findFeature_updateFeature targetId u _ _ Hfind) as Hfind'.
  rewrite <- Hstore in Hfind'.
  apply findFeature_Some in Hfind' as [Hin Hid].
  exists (applyPartial target u). split; [done |]. split; [done |].
  unfold u. rewrite depsOf_applyPartial.
  apply elem_of_app. right. by apply list_elem_of_singleton.
Qed.

(** X5: Once a connection has been made, both connecting the same pair again
    and connecting it the other way round are refused, with any handler,
    and leave the store alone. *)
Theorem connection_refused_after_connection
  (h : option Handler) (sourceId targetId : string) (w w' : World) :
  handleCreateDependency (store w) (Some storeUpdate) sourceId targetId w
  = (true, w') →
  handleCreateDependency (store w') h sourceId targetId w'
  = (false,
     mkWorld (store w') (toasts w' ++ [(ToastInfo, "Dependency already exists")])) ∧
  fst (handleCreateDependency (store w') h targetId sourceId w') = false ∧
  store (snd (handleCreateDependency (store w') h targetId sourceId w'))
  = store w'.
Proof.
  intros Hrun.
  pose proof (edge_after_connection _ _ _ _ Hrun) as Hedge.
  pose proof (handleCreateDependency_true _ _ _ _ _ _ Hrun) as (Hne & _).
  split.
  - unfold handleCreateDependency.
    apply String.eqb_neq in Hne. rewrite Hne.
    apply dependencyExists_spec in Hedge. by rewrite Hedge.
  - destruct (handleCreateDependency_rejects (store w') h targetId sourceId w')
      as (kind & msg & _ & ->); [| done].
    right. right. left.
    apply wouldCreateCircularDependency_spec. by apply rtc_once.
Qed.

Lemma connection_refused_after_connection_witness :
  handleCreateDependency [Sample.fA; Sample.fB_A] None "A" "B"
    (mkWorld [Sample.fA; Sample.fB_A] [(ToastSuccess, "Dependency created")])
  = (false,
     mkWorld [Sample.fA; Sample.fB_A]
       [(ToastSuccess, "Dependency created");
        (ToastInfo, "Dependency already exists")]) ∧
  fst (handleCreateDependency [Sample.fA; Sample.fB_A] None "B" "A"
         (mkWorld [Sample.fA; Sample.fB_A]
            [(ToastSuccess, "Dependency created")])) = false ∧
  store (snd (handleCreateDependency [Sample.fA; Sample.fB_A] None "B" "A"
                (mkWorld [Sample.fA; Sample.fB_A]
                   [(ToastSuccess, "Dependency created")])))
  = [Sample.fA; Sample.fB_A].
Proof.
  apply (connection_refused_after_connection None "A" "B"
           (mkWorld [Sample.fA; Sample.fB] [])
           (mkWorld [Sample.fA; Sample.fB_A]
              [(ToastSuccess, "Dependency created")])).
  vm_compute. reflexivity.
Defined.



(** X7: An accepted connection touches nothing but the target: the store keeps
    its length, every feature with another id stays where and as it was,
    and exactly one toast, the success toast, is shown. *)
Theorem handleCreateDependency_frame
  (sourceId targetId : string) (w w' : World) :
  handleCreateDependency (store w) (Some storeUpdate) sourceId targetId w
  = (true, w') →
  length (store w') = length (store w) ∧
  (∀ (i : nat) f,
     store w !! i = Some f → Feature.id f ≠ targetId →
     store w' !! i = Some f) ∧
  toasts w' = toasts w ++ [(ToastSuccess, "Dependency created")].
Proof.
  intros Hrun.
  apply handleCreateDependency_accepted_store in Hrun
    as (target & Hfind & _ & _ & -> & Htoast).
  split; [apply length_updateFeature |]. split; [| done].
  intros i f Hi Hid. by apply lookup_updateFeature_ne.
Qed.

Lemma handleCreateDependency_frame_witness :
  length [Sample.fA; Sample.fB_A; Sample.task "C" (Some ["A"])] = 3%nat ∧
  (∀ (i : nat) f,
     [Sample.fA; Sample.fB_A; Sample.fC] !! i = Some f →
     Feature.id f ≠ "C" →
     [Sample.fA; Sample.fB_A; Sample.task "C" (Some ["A"])] !! i = Some f) ∧
  [(ToastSuccess, "Dependency created")]
  = [] ++ [(ToastSuccess, "Dependency created")].
Proof.
  apply (handleCreateDependency_frame "A" "C"
           (mkWorld [Sample.fA; Sample.fB_A; Sample.fC] [])
           (mkWorld [Sample.fA; Sample.fB_A; Sample.task "C" (Some ["A"])]
              [(ToastSuccess, "Dependency created")])).
  vm_compute. reflexivity.
Defined.

(** ** What is displayed *)

Section Display.

Variable isPrimaryWorktreeBranch : string → string → bool.

(** The filter looks at the status and the branch of a feature only. *)
Lemma filteredFeatures_same_keys (features features' : list Feature.t)
  (currentWorktreePath currentWorktreeBranch projectPath : option string) :
  (fun f => (Feature.id f, Feature.status f, Feature.branchName f)) <$> features'
  = (fun f => (Feature.id f, Feature.status f, Feature.branchName f)) <$> features →
  Feature.id <$> filteredFeatures isPrimaryWorktreeBranch features'
                   currentWorktreePath currentWorktreeBranch projectPath
  = Feature.id <$> filteredFeatures isPrimaryWorktreeBranch features
                     currentWorktreePath currentWorktreeBranch projectPath.
Proof.
  revert features'.
  induction features as [| f features IH]; intros [| g features'] Heq;
    try done.
  injection Heq as Hid Hst Hbr Hrest.
  unfold filteredFeatures in *. simpl.
  rewrite Hst, Hbr.
  destruct (String.eqb (Feature.status f) "completed"); [by apply IH |].
  match goal with
  | |- context [if ?c then _ else _] => destruct c
  end; simpl; [| by apply IH].
  f_equal; [done | by apply IH].
Qed.

Lemma updateFeature_same_keys featureId deps features :
  (fun f => (Feature.id f, Feature.status f, Feature.branchName f))
    <$> updateFeature featureId (dependenciesUpdate deps) features
  = (fun f => (Feature.id f, Feature.status f, Feature.branchName f))
      <$> features.
Proof.
  unfold updateFeature. rewrite <- list_fmap_compose.
  apply list_fmap_ext. intros i f _. simpl.
  by destruct (String.eqb (Feature.id f) featureId).
Qed.

(** X8: Editing dependencies never changes which features the graph shows:
    after any sequence of connections and disconnections the filtered
    view lists the same ids in the same order. *)
Theorem runActions_same_display
  (h : option Handler) (actions : list GraphAction) (w : World)
  (currentWorktreePath currentWorktreeBranch projectPath : option string) :
  boardHandler h →
  Feature.id <$> filteredFeatures isPrimaryWorktreeBranch
                   (store (snd (runActions h actions w)))
                   currentWorktreePath currentWorktreeBranch projectPath
  = Feature.id <$> filteredFeatures isPrimaryWorktreeBranch (store w)
                     currentWorktreePath currentWorktreeBranch projectPath.
Proof.
  intros Hh. apply filteredFeatures_same_keys.
  apply (runActions_preserves
           (fun fs =>
              (fun f => (Feature.id f, Feature.status f, Feature.branchName f))
                <$> fs
              = (fun f => (Feature.id f, Feature.status f, Feature.branchName f))
                  <$> store w) h); [| done].
  intros [sourceId targetId | sourceId targetId] w0 Hkeys; simpl.
  - destruct (handleCreateDependency_store h sourceId targetId w0 Hh)
      as [-> | (target & _ & _ & _ & ->)]; [done |].
    by rewrite updateFeature_same_keys.
  - destruct (onDeleteDependency_cases h sourceId targetId w0 Hh)
      as [-> | (target & _ & ->)]; [done |].
    by rewrite updateFeature_same_keys.
Qed.

(** X9: Views of two different branches never show the same feature, unless
    both are views of the primary worktree. *)
Theorem filteredFeatures_branches_disjoint
  (features : list Feature.t) (path1 path2 project1 project2 : option string)
  (branch1 branch2 : string) (f : Feature.t) :
  branch1 ≠ branch2 →
  path1 ≠ None ∨ path2 ≠ None →
  f ∈ filteredFeatures isPrimaryWorktreeBranch features
        path1 (Some branch1) project1 →
  f ∉ filteredFeatures isPrimaryWorktreeBranch features
        path2 (Some branch2) project2.
Proof.
  intros Hne Hpaths. unfold filteredFeatures.
  rewrite !list_elem_of_In, !filter_In.
  intros [_ H1] [_ H2].
  destruct (String.eqb (Feature.status f) "completed"); [done |].
  destruct (whenTruthy (Feature.branchName f)) as [featureBranch |].
  - apply String.eqb_eq in H1, H2. congruence.
  - apply bool_decide_eq_true in H1, H2. tauto.
Qed.

End Display.

Lemma runActions_same_display_witness :
  boardHandler (Some storeUpdate) ∧
  Feature.id <$> filteredFeatures (fun _ _ => true)
                   (store (snd (runActions (Some storeUpdate)
                                  [Connect "A" "B"; Disconnect "B" "C"]
                                  (mkWorld [Sample.fA; Sample.fB; Sample.fC_B] []))))
                   None None None
  = Feature.id <$> filteredFeatures (fun _ _ => true)
                     [Sample.fA; Sample.fB; Sample.fC_B] None None None.
Proof.
  split; [constructor |].
  apply (runActions_same_display (fun _ _ => true) (Some storeUpdate)
           [Connect "A" "B"; Disconnect "B" "C"]
           (mkWorld [Sample.fA; Sample.fB; Sample.fC_B] []) None None None).
  constructor.
Defined.

Lemma filteredFeatures_branches_disjoint_witness :
  Feature.mk "F" None "queued" (Some "feature-x") None
  ∈ filteredFeatures (fun _ _ => false)
      [Feature.mk "F" None "queued" (Some "feature-x") None]
      (Some "/worktrees/x") (Some "feature-x") None ∧
  Feature.mk "F" None "queued" (Some "feature-x") None
  ∉ filteredFeatures (fun _ _ => false)
      [Feature.mk "F" None "queued" (Some "feature-x") None]
      None (Some "main") None.
Proof.
  assert (Feature.mk "F" None "queued" (Some "feature-x") None
          ∈ filteredFeatures (fun _ _ => false)
              [Feature.mk "F" None "queued" (Some "feature-x") None]
              (Some "/worktrees/x") (Some "feature-x") None) as Hin.
  { vm_compute. by left. }
  split; [exact Hin |].
  apply (filteredFeatures_branches_disjoint (fun _ _ => false)
           [Feature.mk "F" None "queued" (Some "feature-x") None]
           (Some "/worktrees/x") None None None "feature-x" "main").
  - discriminate.
  - left. discriminate.
  - exact Hin.
Defined.

(** ** Sessions over their lifetime *)

(** X10: A session lives for exactly thirty days (2 592 000 000 ms): a token
    created at [now] validates at [now'] if and only if [now'] is not past
    [now] plus that span; creating it does not change the answer for any
    other token. *)
Theorem createSession_lifetime
  (token other : string) (now now' : Z) (sessions : gmap string Auth.Session) :
  (fst (Auth.validateSession now' token
          (snd (Auth.createSession token now sessions))) = true
   ↔ now' ≤ now + 2592000000) ∧
  (other ≠ token →
   fst (Auth.validateSession now' other
          (snd (Auth.createSession token now sessions)))
   = fst (Auth.validateSession now' other sessions)).
Proof.
  split.
  - rewrite validateSession_true. simpl. rewrite lookup_insert_eq.
    split.
    + intros (session & [= <-] & Hle). simpl in Hle.
      unfold Auth.SESSION_MAX_AGE_MS in Hle. lia.
    + intros Hle. eexists. split; [done |]. simpl.
      unfold Auth.SESSION_MAX_AGE_MS. lia.
  - intros Hne. unfold Auth.validateSession, Auth.createSession. simpl.
    rewrite lookup_insert_ne by done.
    destruct (sessions !! other) as [session |]; [| done].
    by destruct (bool_decide (now' > Auth.expiresAt session)).
Qed.

Lemma createSession_lifetime_witness :
  "other" ≠ "fresh" ∧
  fst (Auth.validateSession 7 "other"
         (snd (Auth.createSession "fresh" 5 Sample.sessions)))
  = fst (Auth.validateSession 7 "other" Sample.sessions).
Proof.
  split; [discriminate |].
  apply (proj2 (createSession_lifetime "fresh" "other" 5 7 Sample.sessions)).
  discriminate.
Defined.

(** Validation never adds a session and removes only the validated
    token, and only when it has expired. *)
Lemma validateSession_sessions
  now token (sessions : gmap string Auth.Session) :
  snd (Auth.validateSession now token sessions) ⊆ sessions ∧
  ∀ t session,
    sessions !! t = Some session → now ≤ Auth.expiresAt session →
    snd (Auth.validateSession now token sessions) !! t = Some session.
Proof.
  unfold Auth.validateSession.
  destruct (sessions !! token) as [s |] eqn:Hlook; simpl; [| done].
  destruct (bool_decide (now > Auth.expiresAt s)) eqn:Hexp; simpl; [| done].
  apply bool_decide_eq_true in Hexp.
  split; [apply delete_subseteq |].
  intros t session Ht Hle.
  destruct (decide (t = token)) as [-> | Hne].
  - rewrite Hlook in Ht. injection Ht as ->. lia.
  - by rewrite lookup_delete_ne.
Qed.

(** X11: The middleware never creates a session and never drops one that has
    not expired: the store after a request is a part of the store before
    it that still holds every unexpired session. *)
Theorem authMiddleware_sessions
  (API_KEY : string) (now : Z) (req : Auth.Request)
  (sessions : gmap string Auth.Session) :
  snd (Auth.authMiddleware API_KEY now req sessions) ⊆ sessions ∧
  ∀ t session,
    sessions !! t = Some session → now ≤ Auth.expiresAt session →
    snd (Auth.authMiddleware API_KEY now req sessions) !! t = Some session.
Proof.
  unfold Auth.authMiddleware.
  destruct (whenTruthy (Auth.header_x_api_key req)) as [headerKey |].
  { by destruct (String.eqb headerKey API_KEY). }
  destruct (whenTruthy (Auth.header_x_session_token req)) as [tokenHeader |].
  { pose proof (validateSession_sessions now tokenHeader sessions) as H.
    destruct (Auth.validateSession now tokenHeader sessions) as [[] sessions'];
      exact H. }
  destruct (whenTruthy (Auth.query_apiKey req)) as [queryKey |].
  { by destruct (String.eqb queryKey API_KEY). }
  destruct (whenTruthy (Auth.sessionCookie req)) as [sessionToken |]; [| done].
  pose proof (validateSession_sessions now sessionToken sessions) as H.
  destruct (Auth.validateSession now sessionToken sessions) as [[] sessions'];
    exact H.
Qed.

Lemma authMiddleware_sessions_witness :
  Sample.sessions !! "tok" = Some (Auth.mkSession 0 10) ∧
  snd (Auth.authMiddleware "secret" 10
         (Auth.mkRequest None (Some "stale") None None)
         Sample.sessions) !! "tok"
  = Some (Auth.mkSession 0 10).
Proof.
  split; [reflexivity |].
  apply (proj2 (authMiddleware_sessions "secret" 10
                  (Auth.mkRequest None (Some "stale") None None)
                  Sample.sessions)).
  - reflexivity.
  - simpl. lia.
Defined.

(** X12: The middleware answers 401 exactly when the API-key header, the
    session-token header and the query key are all absent or empty and
    the cookie is absent, empty or not a valid session; every other
    refusal is a 403. *)
Theorem authMiddleware_unauthenticated
  (API_KEY : string) (now : Z) (req : Auth.Request)
  (sessions : gmap string Auth.Session) :
  (fst (Auth.authMiddleware API_KEY now req sessions)
   = Auth.Status 401 "Authentication required."
   ↔ whenTruthy (Auth.header_x_api_key req) = None ∧
     whenTruthy (Auth.header_x_session_token req) = None ∧
     whenTruthy (Auth.query_apiKey req) = None ∧
     ∀ sessionToken,
       whenTruthy (Auth.sessionCookie req) = Some sessionToken →
       fst (Auth.validateSession now sessionToken sessions) = false) ∧
  (fst (Auth.authMiddleware API_KEY now req sessions) = Auth.Next ∨
   (∃ error, fst (Auth.authMiddleware API_KEY now req sessions)
             = Auth.Status 403 error) ∨
   fst (Auth.authMiddleware API_KEY now req sessions)
   = Auth.Status 401 "Authentication required.").
Proof.
  unfold Auth.authMiddleware.
  destruct (whenTruthy (Auth.header_x_api_key req)) as [headerKey |].
  { destruct (String.eqb headerKey API_KEY); simpl;
      (split; [split; [done | by intros [? _]] | eauto]). }
  destruct (whenTruthy (Auth.header_x_session_token req)) as [tokenHeader |].
  { destruct (Auth.validateSession now tokenHeader sessions) as [[] sessions'];
      simpl; (split; [split; [done | by intros (_ & ? & _)] | eauto]). }
  destruct (whenTruthy (Auth.query_apiKey req)) as [queryKey |].
  { destruct (String.eqb queryKey API_KEY); simpl;
      (split; [split; [done | by intros (_ & _ & ? & _)] | eauto]). }
  destruct (whenTruthy (Auth.sessionCookie req)) as [sessionToken |].
  - destruct (Auth.validateSession now sessionToken sessions)
      as [[] sessions'] eqn:Hv; simpl.
    + split; [| eauto]. split; [done |].
      intros (_ & _ & _ & H). specialize (H sessionToken eq_refl).
      rewrite Hv in H. done.
    + split; [| eauto]. split; [| done].
      intros _. repeat split; try done.
      intros t [= <-]. by rewrite Hv.
  - simpl. split; [| eauto]. split; [| done]. intros _. by repeat split.
Qed.

Lemma authMiddleware_unauthenticated_witness :
  fst (Auth.authMiddleware "secret" 11
         (Auth.mkRequest None (Some "") None
            (Some {[Auth.SESSION_COOKIE_NAME := "tok"]}))
         Sample.sessions)
  = Auth.Status 401 "Authentication required.".
Proof.
  apply (proj1 (authMiddleware_unauthenticated "secret" 11
                  (Auth.mkRequest None (Some "") None
                     (Some {[Auth.SESSION_COOKIE_NAME := "tok"]}))
                  Sample.sessions)).
  repeat split; try reflexivity.
  intros sessionToken [= <-]. reflexivity.
Defined.

(** ** The status check against the middleware *)

(** X13: Whatever the middleware lets through, the status check reports as
    authenticated, with the same effect on the session store. *)
Theorem authMiddleware_next_isRequestAuthenticated
  (API_KEY : string) (now : Z) (req : Auth.Request)
  (sessions sessions' : gmap string Auth.Session) :
  Auth.authMiddleware API_KEY now req sessions = (Auth.Next, sessions') →
  AuthServer.isRequestAuthenticated API_KEY now now req sessions
  = (true, sessions').
Proof.
  unfold Auth.authMiddleware, AuthServer.isRequestAuthenticated.
  destruct (whenTruthy (Auth.header_x_api_key req)) as [headerKey |].
  { destruct (String.eqb headerKey API_KEY); [| done]. by intros [= <-]. }
  destruct (whenTruthy (Auth.header_x_session_token req)) as [tokenHeader |].
  { destruct (Auth.validateSession now tokenHeader sessions) as [[] s1];
      [| done]. by intros [= <-]. }
  destruct (whenTruthy (Auth.query_apiKey req)) as [queryKey |].
  { destruct (String.eqb queryKey API_KEY); [| done]. by intros [= <-]. }
  destruct (whenTruthy (Auth.sessionCookie req)) as [sessionToken |]; [| done].
  destruct (Auth.validateSession now sessionToken sessions) as [[] s1];
    [| done]. by intros [= <-].
Qed.

Lemma authMiddleware_next_isRequestAuthenticated_witness :
  AuthServer.isRequestAuthenticated "secret" 5 5
    (Auth.mkRequest None (Some "tok") (Some "guess") None) Sample.sessions
  = (true, Sample.sessions).
Proof.
  apply (authMiddleware_next_isRequestAuthenticated "secret" 5
           (Auth.mkRequest None (Some "tok") (Some "guess") None)
           Sample.sessions Sample.sessions).
  reflexivity.
Defined.

(** A failed validation leaves the answer for every token at a later
    clock reading as it was. *)
Lemma validateSession_after_failed
  now now' token token' (sessions : gmap string Auth.Session) :
  now ≤ now' →
  fst (Auth.validateSession now token sessions) = false →
  fst (Auth.validateSession now' token'
         (snd (Auth.validateSession now token sessions)))
  = fst (Auth.validateSession now' token' sessions).
Proof.
  intros Hle Hfail. unfold Auth.validateSession in *.
  destruct (sessions !! token) as [s |] eqn:Hlook; simpl; [| done].
  destruct (bool_decide (now > Auth.expiresAt s)) eqn:Hexp; simpl; [| done].
  apply bool_decide_eq_true in Hexp.
  destruct (decide (token' = token)) as [-> | Hne].
  - rewrite lookup_delete_eq, Hlook.
    rewrite bool_decide_eq_true_2; [done | lia].
  - rewrite lookup_delete_ne by done.
    destruct (sessions !! token') as [s' |]; [| done].
    by destruct (bool_decide (now' > Auth.expiresAt s')).
Qed.

Lemma keyMatches_true (API_KEY : string) (credential : option string) :
  match whenTruthy credential with
  | Some key => String.eqb key API_KEY
  | None => false
  end = true
  ↔ whenTruthy credential = Some API_KEY.
Proof.
  destruct (whenTruthy credential) as [key |]; [| done].
  rewrite String.eqb_eq. split; congruence.
Qed.

Lemma tokenValid_true now (credential : option string)
  (sessions : gmap string Auth.Session) :
  fst match whenTruthy credential with
      | Some t => Auth.validateSession now t sessions
      | None => (false, sessions)
      end = true
  ↔ ∃ t, whenTruthy credential = Some t ∧
         fst (Auth.validateSession now t sessions) = true.
Proof.
  destruct (whenTruthy credential) as [t |]; simpl.
  - split; [by exists t | by intros (? & [= <-] & ?)].
  - split; [done | by intros (? & ? & _)].
Qed.

(** X14: Unlike the middleware, the status check accepts a request as soon as
    any one of its four credentials is good, whatever the others are:
    with clock readings that do not run backwards, it answers true
    exactly when the API-key header or the query key equals the key, or
    the token header or the cookie holds a valid session. *)
Theorem isRequestAuthenticated_any_credential
  (API_KEY : string) (nowHeader nowCookie : Z) (req : Auth.Request)
  (sessions : gmap string Auth.Session) :
  nowHeader ≤ nowCookie →
  (fst (AuthServer.isRequestAuthenticated API_KEY nowHeader nowCookie
          req sessions) = true
  ↔ whenTruthy (Auth.header_x_api_key req) = Some API_KEY ∨
    (∃ t, whenTruthy (Auth.header_x_session_token req) = Some t ∧
          fst (Auth.validateSession nowHeader t sessions) = true) ∨
    whenTruthy (Auth.query_apiKey req) = Some API_KEY ∨
    (∃ t, whenTruthy (Auth.sessionCookie req) = Some t ∧
          fst (Auth.validateSession nowCookie t sessions) = true)).
Proof.
  intros Hclock.
  rewrite <- !keyMatches_true, <- (tokenValid_true nowHeader),
    <- (tokenValid_true nowCookie).
  unfold AuthServer.isRequestAuthenticated.
  destruct (match whenTruthy (Auth.header_x_api_key req) with
            | Some key => String.eqb key API_KEY
            | None => false
            end); [simpl; tauto |].
  destruct (whenTruthy (Auth.header_x_session_token req)) as [t |].
  - destruct (Auth.validateSession nowHeader t sessions) as [[] s1] eqn:Hv;
      [simpl; tauto |].
    assert (s1 = snd (Auth.validateSession nowHeader t sessions)) as ->
      by (by rewrite Hv).
    destruct (match whenTruthy (Auth.query_apiKey req) with
              | Some key => String.eqb key API_KEY
              | None => false
              end); [simpl; tauto |].
    destruct (whenTruthy (Auth.sessionCookie req)) as [c |]; simpl.
    + rewrite validateSession_after_failed by (done || by rewrite Hv).
      intuition congruence.
    + intuition congruence.
  - destruct (match whenTruthy (Auth.query_apiKey req) with
              | Some key => String.eqb key API_KEY
              | None => false
              end); [simpl; tauto |].
    destruct (whenTruthy (Auth.sessionCookie req)) as [c |]; simpl;
      intuition congruence.
Qed.

Lemma isRequestAuthenticated_any_credential_witness :
  fst (AuthServer.isRequestAuthenticated "secret" 5 6
         (Auth.mkRequest (Some "guess") (Some "stale") None
            (Some {[Auth.SESSION_COOKIE_NAME := "tok"]}))
         Sample.sessions) = true.
Proof.
  apply (isRequestAuthenticated_any_credential "secret" 5 6
           (Auth.mkRequest (Some "guess") (Some "stale") None
              (Some {[Auth.SESSION_COOKIE_NAME := "tok"]}))
           Sample.sessions).
  - lia.
  - right. right. right. exists "tok". split; reflexivity.
Defined.

(** ** Startup: the sessions file and the API key *)

(** Everything found in the map after loading was there before or is an
    unexpired entry of the file. *)
Lemma loadSessions_lookup entries now (m : gmap string Auth.Session) t session :
  AuthServer.loadSessions (Some entries) now m !! t = Some session →
  m !! t = Some session ∨
  ((t, session) ∈ entries ∧ Auth.expiresAt session > now).
Proof.
  simpl. revert m.
  induction entries as [| [token s] entries IH]; intros m Hlook; simpl in *.
  - by left.
  - apply IH in Hlook as [Hm | [Hin Hexp]].
    + destruct (bool_decide (Auth.expiresAt s > now)) eqn:Hs; [| by left].
      apply bool_decide_eq_true in Hs.
      destruct (decide (token = t)) as [-> | Hne].
      * rewrite lookup_insert_eq in Hm. injection Hm as ->.
        right. split; [by left | done].
      * rewrite lookup_insert_ne in Hm by done. by left.
    + right. split; [by right | done].
Qed.

(** X15: Every session loaded at startup comes from the sessions file and has
    not expired, so that validating it at the time of loading succeeds
    and leaves the store alone. *)
Theorem loadSessions_valid
  (entries : list (string * Auth.Session)) (now : Z)
  (token : string) (session : Auth.Session) :
  AuthServer.loadSessions (Some entries) now ∅ !! token = Some session →
  (token, session) ∈ entries ∧
  Auth.expiresAt session > now ∧
  Auth.validateSession now token (AuthServer.loadSessions (Some entries) now ∅)
  = (true, AuthServer.loadSessions (Some entries) now ∅).
Proof.
  intros Hlook.
  pose proof (loadSessions_lookup _ _ _ _ _ Hlook) as [Hempty | [Hin Hexp]];
    [by rewrite lookup_empty in Hempty |].
  split; [done |]. split; [done |].
  unfold Auth.validateSession. rewrite Hlook.
  rewrite bool_decide_eq_false_2; [done | lia].
Qed.

Lemma loadSessions_valid_witness :
  ("live", Auth.mkSession 0 20)
  ∈ [("old", Auth.mkSession 0 3); ("live", Auth.mkSession 0 20)] ∧
  Auth.expiresAt (Auth.mkSession 0 20) > 5 ∧
  Auth.validateSession 5 "live"
    (AuthServer.loadSessions
       (Some [("old", Auth.mkSession 0 3); ("live", Auth.mkSession 0 20)]) 5 ∅)
  = (true,
     AuthServer.loadSessions
       (Some [("old", Auth.mkSession 0 3); ("live", Auth.mkSession 0 20)]) 5 ∅).
Proof.
  apply (loadSessions_valid
           [("old", Auth.mkSession 0 3); ("live", Auth.mkSession 0 20)]
           5 "live" (Auth.mkSession 0 20)).
  reflexivity.
Defined.

(** Loading a list without repeated tokens into an empty map. *)
Lemma loadSessions_NoDup entries now t session :
  NoDup entries.*1 →
  AuthServer.loadSessions (Some entries) now ∅ !! t = Some session
  ↔ (t, session) ∈ entries ∧ Auth.expiresAt session > now.
Proof.
  simpl. induction entries as [| [token s] entries IH] using rev_ind.
  - intros _. simpl. rewrite lookup_empty. split; [done |].
    by intros [?%elem_of_nil _].
  - rewrite fmap_app, NoDup_app. simpl. intros (Hnodup & Hfresh & _).
    specialize (IH Hnodup). rewrite foldl_snoc, elem_of_app, list_elem_of_singleton.
    assert (∀ s', (token, s') ∉ entries) as Habsent.
    { intros s' Hin. apply (Hfresh token); [| by left].
      apply list_elem_of_fmap. by exists (token, s'). }
    destruct (bool_decide (Auth.expiresAt s > now)) eqn:Hs.
    + apply bool_decide_eq_true in Hs.
      destruct (decide (token = t)) as [-> | Hne].
      * rewrite lookup_insert_eq. split.
        -- intros [= <-]. split; [by right | done].
        -- intros [[Hin | [= <-]] _]; [by apply Habsent in Hin | done].
      * rewrite lookup_insert_ne by done. rewrite IH.
        split; [intros [? ?]; by split; [left |] |].
        intros [[Hin | [= <- _]] Hexp]; [done | congruence].
    + apply bool_decide_eq_false in Hs. rewrite IH.
      split; [intros [? ?]; by split; [left |] |].
      intros [[Hin | [= <- <-]] Hexp]; [done | lia].
Qed.

(** X16: Saving the sessions and loading the file again into an empty map, as
    a restart does, gives back exactly the sessions that have not expired
    ([expiresAt > now]), in whatever order the entries were written. *)
Theorem saveSessions_loadSessions
  (sessions : gmap string Auth.Session)
  (entries : list (string * Auth.Session)) (now : Z) :
  AuthServer.savedAs sessions entries →
  AuthServer.loadSessions (Some entries) now ∅
  = filter (fun entry => Auth.expiresAt entry.2 > now) sessions.
Proof.
  unfold AuthServer.savedAs. intros Hperm.
  apply map_eq. intros t. apply option_eq. intros session.
  rewrite loadSessions_NoDup.
  - rewrite map_lookup_filter_Some, Hperm, elem_of_map_to_list. done.
  - rewrite Hperm. apply NoDup_fst_map_to_list.
Qed.

Lemma saveSessions_loadSessions_witness :
  AuthServer.savedAs Sample.sessions (map_to_list Sample.sessions) ∧
  AuthServer.loadSessions (Some (map_to_list Sample.sessions)) 10 ∅
  = filter (fun entry => Auth.expiresAt entry.2 > 10) Sample.sessions.
Proof.
  assert (AuthServer.savedAs Sample.sessions (map_to_list Sample.sessions))
    as Hsaved by (unfold AuthServer.savedAs; reflexivity).
  split; [exact Hsaved |].
  apply (saveSessions_loadSessions Sample.sessions
           (map_to_list Sample.sessions) 10 Hsaved).
Defined.

(** X17: The two expiry tests do not agree on the boundary: a session whose
    [expiresAt] equals the clock reading is still accepted by
    [validateSession], but a restart at that instant does not load it. *)
Theorem expiry_boundary
  (sessions : gmap string Auth.Session)
  (entries : list (string * Auth.Session))
  (token : string) (session : Auth.Session) :
  AuthServer.savedAs sessions entries →
  sessions !! token = Some session →
  Auth.validateSession (Auth.expiresAt session) token sessions
  = (true, sessions) ∧
  AuthServer.loadSessions (Some entries) (Auth.expiresAt session) ∅ !! token
  = None.
Proof.
  intros Hsaved Hlook. split.
  - unfold Auth.validateSession. rewrite Hlook.
    rewrite bool_decide_eq_false_2; [done | lia].
  - destruct (AuthServer.loadSessions (Some entries) (Auth.expiresAt session) ∅
                !! token) as [s |] eqn:Hloaded; [| done].
    apply loadSessions_NoDup in Hloaded as [Hin Hexp].
    + unfold AuthServer.savedAs in Hsaved.
      rewrite Hsaved, elem_of_map_to_list, Hlook in Hin.
      injection Hin as <-. lia.
    + unfold AuthServer.savedAs in Hsaved.
      rewrite Hsaved. apply NoDup_fst_map_to_list.
Qed.

Lemma expiry_boundary_witness :
  Auth.validateSession 10 "tok" Sample.sessions = (true, Sample.sessions) ∧
  AuthServer.loadSessions (Some (map_to_list Sample.sessions)) 10 ∅ !! "tok"
  = None.
Proof.
  apply (expiry_boundary Sample.sessions (map_to_list Sample.sessions)
           "tok" (Auth.mkSession 0 10)).
  - unfold AuthServer.savedAs. reflexivity.
  - reflexivity.
Defined.

(** X18: The API key is never empty, provided the generated UUID is not; a
    non-empty environment variable always wins and nothing is written
    then; and the key file is written only with a freshly generated
    key. *)
Theorem ensureApiKey_key
  (trim : string → string) (env file : option string) (newKey : string) :
  (newKey ≠ "" → fst (AuthServer.ensureApiKey trim env file newKey) ≠ "") ∧
  (∀ key, env = Some key → key ≠ "" →
          AuthServer.ensureApiKey trim env file newKey = (key, None)) ∧
  (∀ written,
     snd (AuthServer.ensureApiKey trim env file newKey) = Some written →
     written = newKey ∧
     fst (AuthServer.ensureApiKey trim env file newKey) = newKey ∧
     whenTruthy env = None ∧ whenTruthy (trim <$> file) = None).
Proof.
  assert (∀ o key, whenTruthy o = Some key → key ≠ "") as Htruthy.
  { intros [v |] key; simpl; [| done].
    destruct (String.eqb v "") eqn:Hv; [done |].
    intros [= <-]. by apply String.eqb_neq. }
  unfold AuthServer.ensureApiKey. repeat split.
  - intros Hnew.
    destruct (whenTruthy env) as [key |] eqn:Henv; simpl; [by eapply Htruthy |].
    destruct (whenTruthy (trim <$> file)) as [key |] eqn:Hfile; simpl;
      [by eapply Htruthy | done].
  - intros key -> Hkey. by rewrite (whenTruthy_Some _ key).
  - destruct (whenTruthy env); [done |].
    destruct (whenTruthy (trim <$> file)); [done |]. simpl in *. congruence.
  - destruct (whenTruthy env); [done |].
    by destruct (whenTruthy (trim <$> file)).
  - by destruct (whenTruthy env).
  - destruct (whenTruthy env); [done |].
    by destruct (whenTruthy (trim <$> file)).
Qed.

Lemma ensureApiKey_key_witness :
  "0b9c" ≠ "" ∧
  fst (AuthServer.ensureApiKey (fun s => s) (Some "") (Some "") "0b9c") ≠ "".
Proof.
  split; [discriminate |].
  apply (proj1 (ensureApiKey_key (fun s => s) (Some "") (Some "") "0b9c")).
  discriminate.
Defined.

(** ** The routes of [/api/auth] *)

(** X19: Logging in with the API key creates a session whose token is both set
    as cookie and returned, and for thirty days that token passes the
    middleware as session-token header and as session cookie alike. *)
Theorem loginRoute_then_authMiddleware
  (API_KEY token : string) (nodeEnv : option string) (now now' : Z)
  (sessions : gmap string Auth.Session) :
  API_KEY ≠ "" → token ≠ "" → now' ≤ now + Auth.SESSION_MAX_AGE_MS →
  ∃ sessions',
    AuthServer.loginRoute API_KEY nodeEnv (Some API_KEY) token now sessions
    = (AuthServer.LoginReply Auth.SESSION_COOKIE_NAME token
         (AuthServer.getSessionCookieOptions nodeEnv) token, sessions') ∧
    (∀ req,
       whenTruthy (Auth.header_x_api_key req) = None →
       Auth.header_x_session_token req = Some token →
       Auth.authMiddleware API_KEY now' req sessions' = (Auth.Next, sessions')) ∧
    (∀ req,
       whenTruthy (Auth.header_x_api_key req) = None →
       whenTruthy (Auth.header_x_session_token req) = None →
       whenTruthy (Auth.query_apiKey req) = None →
       Auth.sessionCookie req = Some token →
       Auth.authMiddleware API_KEY now' req sessions' = (Auth.Next, sessions')).
Proof.
  intros Hkey Htoken Hle.
  exists (snd (Auth.createSession token now sessions)).
  assert (Auth.validateSession now' token
            (snd (Auth.createSession token now sessions))
          = (true, snd (Auth.createSession token now sessions))) as Hvalid.
  { unfold Auth.validateSession, Auth.createSession. simpl.
    rewrite lookup_insert_eq. simpl.
    rewrite bool_decide_eq_false_2; [done | lia]. }
  split; [| split].
  - unfold AuthServer.loginRoute, Auth.validateApiKey.
    rewrite (whenTruthy_Some _ API_KEY) by done.
    by rewrite String.eqb_refl.
  - intros req Hhk Hth. unfold Auth.authMiddleware.
    rewrite Hhk, (whenTruthy_Some _ token) by done. by rewrite Hvalid.
  - intros req Hhk Hth Hqk Hcookie. unfold Auth.authMiddleware.
    rewrite Hhk, Hth, Hqk, (whenTruthy_Some _ token) by done.
    by rewrite Hvalid.
Qed.

Lemma loginRoute_then_authMiddleware_witness :
  ∃ sessions',
    AuthServer.loginRoute "secret" None (Some "secret") "t0" 0 ∅
    = (AuthServer.LoginReply Auth.SESSION_COOKIE_NAME "t0"
         (AuthServer.getSessionCookieOptions None) "t0", sessions') ∧
    (∀ req,
       whenTruthy (Auth.header_x_api_key req) = None →
       Auth.header_x_session_token req = Some "t0" →
       Auth.authMiddleware "secret" 2592000000 req sessions'
       = (Auth.Next, sessions')) ∧
    (∀ req,
       whenTruthy (Auth.header_x_api_key req) = None →
       whenTruthy (Auth.header_x_session_token req) = None →
       whenTruthy (Auth.query_apiKey req) = None →
       Auth.sessionCookie req = Some "t0" →
       Auth.authMiddleware "secret" 2592000000 req sessions'
       = (Auth.Next, sessions')).
Proof.
  apply (loginRoute_then_authMiddleware "secret" "t0" None 0 2592000000 ∅).
  - discriminate.
  - discriminate.
  - vm_compute. discriminate.
Defined.

(** X20: A login succeeds only with exactly the API key: a missing or empty
    key is answered with 400, any other key with 401, and in both cases
    no session is created. *)
Theorem loginRoute_refused
  (API_KEY token : string) (nodeEnv apiKey : option string) (now : Z)
  (sessions : gmap string Auth.Session) :
  whenTruthy apiKey ≠ Some API_KEY →
  snd (AuthServer.loginRoute API_KEY nodeEnv apiKey token now sessions)
  = sessions ∧
  fst (AuthServer.loginRoute API_KEY nodeEnv apiKey token now sessions)
  = match whenTruthy apiKey with
    | None => AuthServer.Failure 400 "API key is required."
    | Some _ => AuthServer.Failure 401 "Invalid API key."
    end.
Proof.
  intros Hwrong. unfold AuthServer.loginRoute, Auth.validateApiKey.
  destruct (whenTruthy apiKey) as [key |]; [| done].
  assert (String.eqb key API_KEY = false) as ->
    by (apply String.eqb_neq; congruence).
  done.
Qed.

Lemma loginRoute_refused_witness :
  snd (AuthServer.loginRoute "secret" None (Some "Secret") "t0" 0
         Sample.sessions) = Sample.sessions ∧
  fst (AuthServer.loginRoute "secret" None (Some "Secret") "t0" 0
         Sample.sessions)
  = AuthServer.Failure 401 "Invalid API key.".
Proof.
  apply (loginRoute_refused "secret" "t0" None (Some "Secret") 0
           Sample.sessions).
  discriminate.
Defined.

(** X21: After a logout the token of the cookie is gone for good: whatever is
    validated afterwards, a request that presents it as session-token
    header or as cookie, without an API key, is not let through.  All
    other sessions are left as they were. *)
Theorem logoutRoute_invalidates
  (API_KEY token : string) (req : Auth.Request)
  (sessions : gmap string Auth.Session) :
  whenTruthy (Auth.sessionCookie req) = Some token →
  (∀ other, other ≠ token →
     snd (AuthServer.logoutRoute req sessions) !! other = sessions !! other) ∧
  (∀ calls now req',
     whenTruthy (Auth.header_x_api_key req') = None →
     whenTruthy (Auth.query_apiKey req') = None →
     Auth.header_x_session_token req' = Some token ∨
     (whenTruthy (Auth.header_x_session_token req') = None ∧
      Auth.sessionCookie req' = Some token) →
     fst (Auth.authMiddleware API_KEY now req'
            (Auth.validateAll calls (snd (AuthServer.logoutRoute req sessions))))
     ≠ Auth.Next).
Proof.
  intros Hcookie. unfold AuthServer.logoutRoute. rewrite Hcookie. simpl.
  unfold Auth.invalidateSession. split.
  - intros other Hne. by rewrite lookup_delete_ne.
  - intros calls now req' Hhk Hqk Hcred.
    assert (token ≠ "") as Hne.
    { destruct (Auth.sessionCookie req) as [v |]; simpl in Hcookie; [| done].
      destruct (String.eqb v "") eqn:Hv; [done |].
      injection Hcookie as <-. by apply String.eqb_neq. }
    assert (Auth.validateAll calls (delete token sessions) !! token = None)
      as Habs by apply validateAll_keeps_absent, lookup_delete_eq.
    unfold Auth.authMiddleware. rewrite Hhk.
    destruct Hcred as [Hth | [Hth Hc]].
    + rewrite (whenTruthy_Some _ token) by done.
      by rewrite validateSession_unknown.
    + rewrite Hth, Hqk, (whenTruthy_Some _ token) by done.
      by rewrite validateSession_unknown.
Qed.

Lemma logoutRoute_invalidates_witness :
  fst (Auth.authMiddleware "secret" 5
         (Auth.mkRequest None (Some "tok") None None)
         (Auth.validateAll [(4, "tok")]
            (snd (AuthServer.logoutRoute
                    (Auth.mkRequest None None None
                       (Some {[Auth.SESSION_COOKIE_NAME := "tok"]}))
                    Sample.sessions))))
  ≠ Auth.Next.
Proof.
  assert (whenTruthy
            (Auth.sessionCookie
               (Auth.mkRequest None None None
                  (Some {[Auth.SESSION_COOKIE_NAME := "tok"]})))
          = Some "tok") as Hcookie by reflexivity.
  apply (proj2 (logoutRoute_invalidates "secret" "tok"
                  (Auth.mkRequest None None None
                     (Some {[Auth.SESSION_COOKIE_NAME := "tok"]}))
                  Sample.sessions Hcookie)
           [(4, "tok")] 5 (Auth.mkRequest None (Some "tok") None None)).
  - reflexivity.
  - reflexivity.
  - left. reflexivity.
Defined.

(** X22: [GET /token] hands back the cookie without checking that the cookie
    itself is a session: a request with the right API key in its header
    gets any non-empty cookie value back as its token, whatever the
    session store holds. *)
Theorem tokenRoute_returns_cookie
  (API_KEY cookie : string) (nowHeader nowCookie : Z) (req : Auth.Request)
  (sessions : gmap string Auth.Session) :
  API_KEY ≠ "" → cookie ≠ "" →
  Auth.header_x_api_key req = Some API_KEY →
  Auth.sessionCookie req = Some cookie →
  AuthServer.tokenRoute API_KEY nowHeader nowCookie req sessions
  = (AuthServer.TokenReply cookie, sessions).
Proof.
  intros Hkey Hcookie Hhk Hc.
  unfold AuthServer.tokenRoute, AuthServer.isRequestAuthenticated.
  rewrite (whenTruthy_Some _ cookie), (whenTruthy_Some _ API_KEY) by done.
  by rewrite String.eqb_refl.
Qed.

Lemma tokenRoute_returns_cookie_witness :
  AuthServer.tokenRoute "secret" 5 5
    (Auth.mkRequest (Some "secret") None None
       (Some {[Auth.SESSION_COOKIE_NAME := "not-a-session"]})) ∅
  = (AuthServer.TokenReply "not-a-session", ∅).
Proof.
  apply (tokenRoute_returns_cookie "secret" "not-a-session" 5 5
           (Auth.mkRequest (Some "secret") None None
              (Some {[Auth.SESSION_COOKIE_NAME := "not-a-session"]})) ∅).
  - discriminate.
  - discriminate.
  - reflexivity.
  - reflexivity.
Defined.

(** X23: When the cookie is the only credential of a request, [GET /token]
    returns a token exactly when the cookie holds a valid session, and
    the token returned is that session's. *)
Theorem tokenRoute_cookie_only
  (API_KEY token : string) (nowHeader nowCookie : Z) (req : Auth.Request)
  (sessions : gmap string Auth.Session) :
  whenTruthy (Auth.header_x_api_key req) = None →
  whenTruthy (Auth.header_x_session_token req) = None →
  whenTruthy (Auth.query_apiKey req) = None →
  fst (AuthServer.tokenRoute API_KEY nowHeader nowCookie req sessions)
  = AuthServer.TokenReply token
  ↔ whenTruthy (Auth.sessionCookie req) = Some token ∧
    fst (Auth.validateSession nowCookie token sessions) = true.
Proof.
  intros Hhk Hth Hqk.
  unfold AuthServer.tokenRoute, AuthServer.isRequestAuthenticated.
  rewrite Hhk, Hth, Hqk.
  destruct (whenTruthy (Auth.sessionCookie req)) as [c |]; simpl.
  - destruct (Auth.validateSession nowCookie c sessions) as [[] s1] eqn:Hv;
      simpl.
    + split; [intros [= <-]; by rewrite Hv | by intros [[= <-] _]].
    + split; [done |]. intros [[= <-] H]. rewrite Hv in H. done.
  - split; [done | by intros [? _]].
Qed.

Lemma tokenRoute_cookie_only_witness :
  fst (AuthServer.tokenRoute "secret" 5 5
         (Auth.mkRequest None None None
            (Some {[Auth.SESSION_COOKIE_NAME := "tok"]})) Sample.sessions)
  = AuthServer.TokenReply "tok".
Proof.
  apply (tokenRoute_cookie_only "secret" "tok" 5 5
           (Auth.mkRequest None None None
              (Some {[Auth.SESSION_COOKIE_NAME := "tok"]})) Sample.sessions).
  - reflexivity.
  - reflexivity.
  - reflexivity.
  - split; reflexivity.
Defined.
